(** * DeliveryStrategy: detour evaluation, path following and blocking recovery

    A shallow embedding of [src/strategies/delivery.js].  The class
    [DeliveryStrategy] becomes a record of its instance fields; its methods
    become computations in a small state monad over that record which can also
    throw (a [TypeError] on a property read of [null]) and which records, in
    order, every call made to the external pathfinder.

    Numbers.  Grid coordinates, rewards, route lengths and the blocking
    counter are JavaScript numbers holding integers and are modelled as [Z];
    the coordinates of the other agents may lie between two cells (the source
    applies [Math.floor] to them) and are modelled as [Q].  The detour score
    [reward / (addedSteps + 1)] is the double that JavaScript computes: the
    quotient rounded to 53 significant bits, ties to even, or the IEEE
    special value that a division by zero produces. *)

From Stdlib Require Import ZArith QArith Qround Qabs Qpower String List Bool Lia.
Import ListNotations.
Local Open Scope Z_scope.

(** ** Data model *)

Module Position.
Record t : Type := mk { x : Z; y : Z }.
End Position.

Module Parcel.
Record t : Type := mk {
  id : string;
  x : Z;
  y : Z;
  reward : Z;
  carriedBy : option string   (* [None] is [null] *)
}.
End Parcel.

Module Agent.
Record t : Type := mk { id : string; x : Q; y : Q }.
End Agent.

(** What [getDeliveryAction] hands back to the runtime:
    [{action: PUTDOWN}], [{action: PICKUP, target}] or [{action: <move>}]. *)
Inductive Action : Type :=
| Putdown
| Pickup (target : string)
| Move (action : string).

(** JavaScript truthiness of a value that is [null] or a string: [null] and
    the empty string are falsy. *)
Definition truthy (v : option string) : bool :=
  match v with
  | None => false
  | Some str => negb (String.eqb str EmptyString)
  end.

(** The belief store, as far as the strategy reads it.  [agents] may be
    absent. *)
Record Beliefs : Type := {
  myId : option string;
  myPosition : option Position.t;
  agents : option (list Agent.t);
  availableParcels : list Parcel.t;
  isDeliveryTile : Z -> Z -> bool;
  getClosestDeliveryTile : Z -> Z -> option Position.t;
  calculateDistance : Z -> Z -> Z
}.

(** The router.  [getActionToNextStep] yields a move name or [null]. *)
Record Pathfinder : Type := {
  findPath : Z -> Z -> Z -> Z -> list Position.t;
  getActionToNextStep : Z -> Z -> Z -> Z -> option string
}.

(** The instance fields set by the constructor. *)
Record DeliveryStrategy : Type := {
  beliefs : Beliefs;
  pathfinder : Pathfinder;
  carriedParcels : list Parcel.t;
  deliveryThreshold : Z;
  maxDetourDistance : Z;
  deliveryPath : list Position.t;
  blockedTargetTile : option Position.t;
  blockedCounter : Z;
  BLOCKED_TIMEOUT : Z
}.

Definition set_carriedParcels (v : list Parcel.t) (s : DeliveryStrategy) :=
  {| beliefs := beliefs s; pathfinder := pathfinder s;
     carriedParcels := v;
     deliveryThreshold := deliveryThreshold s;
     maxDetourDistance := maxDetourDistance s;
     deliveryPath := deliveryPath s;
     blockedTargetTile := blockedTargetTile s;
     blockedCounter := blockedCounter s;
     BLOCKED_TIMEOUT := BLOCKED_TIMEOUT s |}.

Definition set_deliveryPath (v : list Position.t) (s : DeliveryStrategy) :=
  {| beliefs := beliefs s; pathfinder := pathfinder s;
     carriedParcels := carriedParcels s;
     deliveryThreshold := deliveryThreshold s;
     maxDetourDistance := maxDetourDistance s;
     deliveryPath := v;
     blockedTargetTile := blockedTargetTile s;
     blockedCounter := blockedCounter s;
     BLOCKED_TIMEOUT := BLOCKED_TIMEOUT s |}.

Definition set_blockedTargetTile (v : option Position.t) (s : DeliveryStrategy) :=
  {| beliefs := beliefs s; pathfinder := pathfinder s;
     carriedParcels := carriedParcels s;
     deliveryThreshold := deliveryThreshold s;
     maxDetourDistance := maxDetourDistance s;
     deliveryPath := deliveryPath s;
     blockedTargetTile := v;
     blockedCounter := blockedCounter s;
     BLOCKED_TIMEOUT := BLOCKED_TIMEOUT s |}.

Definition set_blockedCounter (v : Z) (s : DeliveryStrategy) :=
  {| beliefs := beliefs s; pathfinder := pathfinder s;
     carriedParcels := carriedParcels s;
     deliveryThreshold := deliveryThreshold s;
     maxDetourDistance := maxDetourDistance s;
     deliveryPath := deliveryPath s;
     blockedTargetTile := blockedTargetTile s;
     blockedCounter := v;
     BLOCKED_TIMEOUT := BLOCKED_TIMEOUT s |}.

(** ** The monad of methods *)

(** A call made to the pathfinder. *)
Inductive PfCall : Type :=
| CallFindPath (x1 y1 x2 y2 : Z)
| CallGetActionToNextStep (curX curY nextX nextY : Z).

Inductive outcome (A : Type) : Type :=
| Returned (a : A)
| Threw (error : string).
Arguments Returned {A} a.
Arguments Threw {A} error.

(** One run of a method: what it returned or threw, the fields afterwards,
    and the pathfinder calls it made, oldest first. *)
Record Run (A : Type) : Type := mkRun {
  result : outcome A;
  final : DeliveryStrategy;
  calls : list PfCall
}.

Arguments mkRun {A} result final calls.
Arguments result {A} r.
Arguments final {A} r.
Arguments calls {A} r.

Definition M (A : Type) : Type := DeliveryStrategy -> Run A.

Definition ret {A} (a : A) : M A := fun s => mkRun (Returned a) s [].

Definition bind {A B} (m : M A) (k : A -> M B) : M B :=
  fun s =>
    let r := m s in
    match result r with
    | Returned a =>
        let r' := k a (final r) in
        mkRun (result r') (final r') (calls r ++ calls r')
    | Threw e => mkRun (Threw e) (final r) (calls r)
    end.

Definition throw {A} (e : string) : M A := fun s => mkRun (Threw e) s [].

(** [this.f] *)
Definition read {A} (f : DeliveryStrategy -> A) : M A :=
  fun s => mkRun (Returned (f s)) s [].

(** [this.f = v] *)
Definition write (upd : DeliveryStrategy -> DeliveryStrategy) : M unit :=
  fun s => mkRun (Returned tt) (upd s) [].

(** [this.pathfinder.findPath(x1, y1, x2, y2)] *)
Definition callFindPath (x1 y1 x2 y2 : Z) : M (list Position.t) :=
  fun s => mkRun (Returned (findPath (pathfinder s) x1 y1 x2 y2)) s
                 [CallFindPath x1 y1 x2 y2].

(** [this.pathfinder.getActionToNextStep(curX, curY, nextX, nextY)] *)
Definition callGetActionToNextStep (cx cy nx ny : Z) : M (option string) :=
  fun s => mkRun (Returned (getActionToNextStep (pathfinder s) cx cy nx ny)) s
                 [CallGetActionToNextStep cx cy nx ny].

Declare Scope method_scope.
Delimit Scope method_scope with method.
Notation "v <- m ;; k" := (bind m (fun v => k))
  (at level 61, m at next level, right associativity) : method_scope.
Notation "m ;; k" := (bind m (fun _ => k))
  (at level 61, right associativity) : method_scope.
Local Open Scope method_scope.

(** ** Detour scores *)

(** The value of a JavaScript division: a double, kept as the rational it
    stands for, or one of the special values. *)
Inductive score : Type :=
| NaN
| NegInfinity
| Finite (q : Q)
| PosInfinity.

(** The integer [e] with [2^e <= m < 2^(e+1)], for [m > 0]. *)
Definition floorLog2 (m : Q) : Z :=
  let e := Z.log2 (Qnum m) - Z.log2 (Zpos (Qden m)) in
  if Qle_bool (Qpower 2 e) m then e else e - 1.

(** The integer nearest to [q]; of two equally near, the even one. *)
Definition roundHalfEven (q : Q) : Z :=
  let below := Qfloor q in
  let twice := Qfloor (2 * q) - 2 * below in
  if twice =? 0 then below
  else if Qeq_bool (2 * q) (inject_Z (2 * below + 1))
       then (if Z.even below then below else below + 1)
       else below + 1.

(** Rounding to the nearest double, ties to even: the nearest multiple of
    [2^(e-52)] where [2^e <= |q| < 2^(e+1)].  The quotients rounded here are
    of a reward that is itself a finite double by a non-zero integer of the
    size of a route length, so they are never large enough to overflow nor
    small enough to be subnormal. *)
Definition round53 (q : Q) : Q :=
  if Qeq_bool q 0 then 0%Q
  else
    let m := Qabs q in
    let ulp := Qpower 2 (floorLog2 m - 52) in
    let n := inject_Z (roundHalfEven (m / ulp)) in
    if Qle_bool 0 q then (n * ulp)%Q else (- (n * ulp))%Q.

(** [a / b] on two numbers holding integers. *)
Definition js_div (a b : Z) : score :=
  if b =? 0 then
    if 0 <? a then PosInfinity
    else if a <? 0 then NegInfinity
    else NaN
  else Finite (round53 (inject_Z a / inject_Z b)).

(** [a > b] on such values; every comparison with [NaN] is false. *)
Definition js_gt (a b : score) : bool :=
  match a, b with
  | NaN, _ | _, NaN => false
  | NegInfinity, _ => false
  | Finite _, NegInfinity => true
  | Finite p, Finite q => negb (Qle_bool p q)
  | Finite _, PosInfinity => false
  | PosInfinity, PosInfinity => false
  | PosInfinity, _ => true
  end.

(** ** The methods *)

Definition len {A} (l : list A) : Z := Z.of_nat (length l).

Definition isAtPosition (x1 y1 x2 y2 : Z) : bool :=
  (x1 =? x2) && (y1 =? y2).

Definition isPathLeadingTo (path : list Position.t) (targetX targetY : Z) : bool :=
  if len path =? 0 then false
  else
    match nth_error path (length path - 1) with
    | Some finalStep =>
        (Position.x finalStep =? targetX) && (Position.y finalStep =? targetY)
    | None => false
    end.

Definition shouldDeliver : M bool :=
  carried <- read carriedParcels ;;
  ret (0 <? len carried).

(** [a === b] on values that are [null] or a string. *)
Definition strictEq (a b : option string) : bool :=
  match a, b with
  | None, None => true
  | Some u, Some v => String.eqb u v
  | _, _ => false
  end.

Definition isBlockedByOtherAgent (x y : Z) : M bool :=
  b <- read beliefs ;;
  match truthy (myId b), agents b with
  | true, Some others =>
      ret (existsb (fun agent =>
                      negb (strictEq (Some (Agent.id agent)) (myId b))
                      && (Qfloor (Agent.x agent) =? x)
                      && (Qfloor (Agent.y agent) =? y))
                   others)
  | _, _ => ret false   (* [!this.beliefs.myId || !this.beliefs.agents] *)
  end.

Definition isSameTile (tile : option Position.t) (targetX targetY : Z) : bool :=
  match tile with
  | Some t => (Position.x t =? targetX) && (Position.y t =? targetY)
  | None => false
  end.

(** The [for (const parcel of potentialDetourParcels)] loop, with its two
    locals [bestDetourParcel] and [bestDetourScore]. *)
Fixpoint detourLoop (currentPos deliveryTile : Position.t) (basePathLength : Z)
    (parcels : list Parcel.t)
    (bestDetourParcel : option Parcel.t) (bestDetourScore : score)
    : M (option Parcel.t * score) :=
  match parcels with
  | [] => ret (bestDetourParcel, bestDetourScore)
  | parcel :: rest =>
      let continue :=
        detourLoop currentPos deliveryTile basePathLength rest
                   bestDetourParcel bestDetourScore in
      pathToParcel <- callFindPath (Position.x currentPos) (Position.y currentPos)
                                   (Parcel.x parcel) (Parcel.y parcel) ;;
      if (len pathToParcel =? 0)
         && negb (isAtPosition (Position.x currentPos) (Position.y currentPos)
                               (Parcel.x parcel) (Parcel.y parcel))
      then continue
      else
        pathFromParcelToDelivery <-
          callFindPath (Parcel.x parcel) (Parcel.y parcel)
                       (Position.x deliveryTile) (Position.y deliveryTile) ;;
        if (len pathFromParcelToDelivery =? 0)
           && negb (isAtPosition (Parcel.x parcel) (Parcel.y parcel)
                                 (Position.x deliveryTile) (Position.y deliveryTile))
        then continue
        else
          let detourDistance := len pathToParcel in
          let totalDistance := detourDistance + len pathFromParcelToDelivery in
          let addedSteps := totalDistance - basePathLength in
          maxDetour <- read maxDetourDistance ;;
          if addedSteps <=? maxDetour then
            let detourScore := js_div (Parcel.reward parcel) (addedSteps + 1) in
            if js_gt detourScore bestDetourScore then
              detourLoop currentPos deliveryTile basePathLength rest
                         (Some parcel) detourScore
            else continue
          else continue
  end.

Definition evaluateDetourParcels : M (option Parcel.t) :=
  b <- read beliefs ;;
  match myPosition b with
  | None => throw "TypeError"
  | Some currentPos =>
      match getClosestDeliveryTile b (Position.x currentPos) (Position.y currentPos) with
      | None => ret None
      | Some deliveryTile =>
          basePath <- callFindPath (Position.x currentPos) (Position.y currentPos)
                                   (Position.x deliveryTile) (Position.y deliveryTile) ;;
          let basePathLength := len basePath in
          if (basePathLength =? 0)
             && negb (isAtPosition (Position.x currentPos) (Position.y currentPos)
                                   (Position.x deliveryTile) (Position.y deliveryTile))
          then ret None
          else
            threshold <- read deliveryThreshold ;;
            maxDetour <- read maxDetourDistance ;;
            let potentialDetourParcels :=
              filter (fun p =>
                        calculateDistance b (Parcel.x p) (Parcel.y p) <=? maxDetour)
                (filter (fun p =>
                           negb (truthy (Parcel.carriedBy p))
                           && (threshold <? Parcel.reward p))
                   (availableParcels b)) in
            best <- detourLoop currentPos deliveryTile basePathLength
                               potentialDetourParcels None NegInfinity ;;
            ret (fst best)
      end
  end.

(** The name carried by a truthy move. *)
Definition moveName (action : option string) : string :=
  match action with
  | Some name => name
  | None => EmptyString
  end.

(** [this.blockedTargetTile = null; this.blockedCounter = 0;] *)
Definition resetBlockState : M unit :=
  write (set_blockedTargetTile None) ;;
  write (set_blockedCounter 0).

Definition followDeliveryPath (currentX currentY : Z) : M (option Action) :=
  path <- read deliveryPath ;;
  match path with
  | [] =>
      resetBlockState ;;
      ret None
  | nextStep :: _ =>
      let targetX := Position.x nextStep in
      let targetY := Position.y nextStep in
      isBlocked <- isBlockedByOtherAgent targetX targetY ;;
      if isBlocked then
        tile <- read blockedTargetTile ;;
        if isSameTile tile targetX targetY then
          counter <- read blockedCounter ;;
          write (set_blockedCounter (counter + 1)) ;;
          counter' <- read blockedCounter ;;
          timeout <- read BLOCKED_TIMEOUT ;;
          if timeout <=? counter' then
            write (set_deliveryPath []) ;;
            resetBlockState ;;
            ret None
          else ret None
        else
          write (set_blockedTargetTile (Some (Position.mk targetX targetY))) ;;
          write (set_blockedCounter 1) ;;
          ret None
      else
        resetBlockState ;;
        action <- callGetActionToNextStep currentX currentY targetX targetY ;;
        if truthy action then
          steps <- read deliveryPath ;;
          write (set_deliveryPath (tl steps)) ;;
          ret (Some (Move (moveName action)))
        else
          write (set_deliveryPath []) ;;
          resetBlockState ;;
          ret None
  end.

(** The two places of [getDeliveryAction] that make the committed route lead
    to a target before following it. *)
Definition needsNewPath (path : list Position.t) (targetX targetY : Z) : bool :=
  (len path =? 0) || negb (isPathLeadingTo path targetX targetY).

Definition getDeliveryAction : M (option Action) :=
  deliver <- shouldDeliver ;;
  if negb deliver then ret None
  else
    b <- read beliefs ;;
    match myPosition b with
    | None => ret None
    | Some currentPos =>
        let cx := Position.x currentPos in
        let cy := Position.y currentPos in
        if isDeliveryTile b cx cy then
          write (set_deliveryPath []) ;;
          ret (Some Putdown)
        else
          detourParcel <- evaluateDetourParcels ;;
          match detourParcel with
          | Some detour =>
              if isAtPosition (Parcel.x detour) (Parcel.y detour) cx cy then
                ret (Some (Pickup (Parcel.id detour)))
              else
                path <- read deliveryPath ;;
                (if needsNewPath path (Parcel.x detour) (Parcel.y detour) then
                   newPath <- callFindPath cx cy (Parcel.x detour) (Parcel.y detour) ;;
                   write (set_deliveryPath newPath)
                 else ret tt) ;;
                followDeliveryPath cx cy
          | None =>
              match getClosestDeliveryTile b cx cy with
              | None =>
                  write (set_deliveryPath []) ;;
                  ret None
              | Some closestDeliveryTile =>
                  path <- read deliveryPath ;;
                  (if needsNewPath path (Position.x closestDeliveryTile)
                                        (Position.y closestDeliveryTile) then
                     newPath <- callFindPath cx cy
                                  (Position.x closestDeliveryTile)
                                  (Position.y closestDeliveryTile) ;;
                     write (set_deliveryPath newPath)
                   else ret tt) ;;
                  followDeliveryPath cx cy
              end
          end
    end.

Definition updateCarriedParcels (allParcels : list Parcel.t) : M unit :=
  b <- read beliefs ;;
  match myId b with
  | Some _ =>
      write (set_carriedParcels
               (filter (fun p => strictEq (Parcel.carriedBy p) (myId b)) allParcels)) ;;
      carried <- read carriedParcels ;;
      path <- read deliveryPath ;;
      if (len carried =? 0) && (0 <? len path) then
        write (set_deliveryPath []) ;;
        resetBlockState
      else ret tt
  | None =>
      write (set_carriedParcels [])
  end.

(** ** Detour evaluation, read as a selection over the parcel list *)

(** Length of the route the strategy's router gives between two cells. *)
Definition routeLength (s : DeliveryStrategy) (x1 y1 x2 y2 : Z) : Z :=
  len (findPath (pathfinder s) x1 y1 x2 y2).

(** A leg is unreachable when its route is empty although the two cells
    differ. *)
Definition legReachable (s : DeliveryStrategy) (x1 y1 x2 y2 : Z) : bool :=
  negb ((routeLength s x1 y1 x2 y2 =? 0) && negb (isAtPosition x1 y1 x2 y2)).

Definition addedSteps (s : DeliveryStrategy) (cur tile : Position.t)
    (p : Parcel.t) : Z :=
  routeLength s (Position.x cur) (Position.y cur) (Parcel.x p) (Parcel.y p)
  + routeLength s (Parcel.x p) (Parcel.y p) (Position.x tile) (Position.y tile)
  - routeLength s (Position.x cur) (Position.y cur)
                  (Position.x tile) (Position.y tile).

Definition detourScore (s : DeliveryStrategy) (cur tile : Position.t)
    (p : Parcel.t) : score :=
  js_div (Parcel.reward p) (addedSteps s cur tile p + 1).

(** The tests of the two [filter] calls. *)
Definition passesFilters (s : DeliveryStrategy) (p : Parcel.t) : bool :=
  (negb (truthy (Parcel.carriedBy p)) && (deliveryThreshold s <? Parcel.reward p))
  && (calculateDistance (beliefs s) (Parcel.x p) (Parcel.y p)
      <=? maxDetourDistance s).

(** The tests inside the loop body that let a parcel be scored. *)
Definition passesRouting (s : DeliveryStrategy) (cur tile : Position.t)
    (p : Parcel.t) : bool :=
  legReachable s (Position.x cur) (Position.y cur) (Parcel.x p) (Parcel.y p)
  && legReachable s (Parcel.x p) (Parcel.y p) (Position.x tile) (Position.y tile)
  && (addedSteps s cur tile p <=? maxDetourDistance s).

(** Running maximum with a strict comparison over the elements that pass
    [ok]. *)
Fixpoint pickBest {A} (ok : A -> bool) (f : A -> score) (l : list A)
    (best : option A) (bestScore : score) : option A * score :=
  match l with
  | [] => (best, bestScore)
  | a :: rest =>
      if ok a then
        if js_gt (f a) bestScore then pickBest ok f rest (Some a) (f a)
        else pickBest ok f rest best bestScore
      else pickBest ok f rest best bestScore
  end.

(** The router calls of one pass of the loop over [parcels]. *)
Fixpoint loopCalls (s : DeliveryStrategy) (cur tile : Position.t)
    (parcels : list Parcel.t) : list PfCall :=
  match parcels with
  | [] => []
  | p :: rest =>
      CallFindPath (Position.x cur) (Position.y cur) (Parcel.x p) (Parcel.y p)
      :: (if legReachable s (Position.x cur) (Position.y cur)
                            (Parcel.x p) (Parcel.y p)
          then [CallFindPath (Parcel.x p) (Parcel.y p)
                             (Position.x tile) (Position.y tile)]
          else [])
      ++ loopCalls s cur tile rest
  end.


Definition potentialDetourParcels (s : DeliveryStrategy) : list Parcel.t :=
  filter (fun p => calculateDistance (beliefs s) (Parcel.x p) (Parcel.y p)
                   <=? maxDetourDistance s)
    (filter (fun p => negb (truthy (Parcel.carriedBy p))
                      && (deliveryThreshold s <? Parcel.reward p))
       (availableParcels (beliefs s))).

(** A score that the initial [-Infinity] loses to: a finite value or
    [+Infinity]. *)
Definition comparable (sc : score) : Prop := js_gt sc NegInfinity = true.

(** [p] is the selection from [before ++ p :: after]: it passes [ok], beats
    every passing element before it and is not beaten by any after it. *)
Definition selects {A} (ok : A -> bool) (f : A -> score)
    (before : list A) (p : A) (after : list A) : Prop :=
  ok p = true
  /\ (forall q, In q before -> ok q = true -> js_gt (f p) (f q) = true)
  /\ (forall q, In q after -> ok q = true -> js_gt (f q) (f p) = false).

(** ** The claim's notion of a detour candidate *)

(** A route leg is reachable unless its route is empty between two different
    cells. *)
Definition reachable (s : DeliveryStrategy) (x1 y1 x2 y2 : Z) : Prop :=
  routeLength s x1 y1 x2 y2 = 0 -> x1 = x2 /\ y1 = y2.

Record validDetour (s : DeliveryStrategy) (cur tile : Position.t)
    (p : Parcel.t) : Prop := {
  detour_uncarried : truthy (Parcel.carriedBy p) = false;
  detour_reward : deliveryThreshold s < Parcel.reward p;
  detour_near :
    calculateDistance (beliefs s) (Parcel.x p) (Parcel.y p) <= maxDetourDistance s;
  detour_leg_to_parcel :
    reachable s (Position.x cur) (Position.y cur) (Parcel.x p) (Parcel.y p);
  detour_leg_to_delivery :
    reachable s (Parcel.x p) (Parcel.y p) (Position.x tile) (Position.y tile);
  detour_added : addedSteps s cur tile p <= maxDetourDistance s
}.

(** ** Being blocked, as the claims word it *)

(** [agent] is an agent other than this one standing on cell [(x, y)]. *)
Definition otherAgentAt (s : DeliveryStrategy) (x y : Z) (agent : Agent.t) : Prop :=
  Some (Agent.id agent) <> myId (beliefs s)
  /\ Qfloor (Agent.x agent) = x
  /\ Qfloor (Agent.y agent) = y.

(** The agent knows who it is, and sees another agent on cell [(x, y)]. *)
Definition occupiedByOther (s : DeliveryStrategy) (x y : Z) : Prop :=
  truthy (myId (beliefs s)) = true
  /\ exists others agent,
       agents (beliefs s) = Some others
       /\ In agent others
       /\ otherAgentAt s x y agent.

(** The block state [(null, 0)]. *)
Definition blockStateReset (s : DeliveryStrategy) : Prop :=
  blockedTargetTile s = None /\ blockedCounter s = 0.

(** [n] consecutive turns of [followDeliveryPath] from the same position. *)
Fixpoint followTurns (n : nat) (currentX currentY : Z) (s : DeliveryStrategy)
    : DeliveryStrategy :=
  match n with
  | O => s
  | S k => followTurns k currentX currentY
             (final (followDeliveryPath currentX currentY s))
  end.

(** ** The committed route, as the claims word it *)

(** The last element of [path] has the coordinates [(targetX, targetY)]. *)
Definition pathLeadsTo (path : list Position.t) (targetX targetY : Z) : Prop :=
  exists front finalStep,
    path = front ++ [finalStep]
    /\ Position.x finalStep = targetX
    /\ Position.y finalStep = targetY.

(** Where [getDeliveryAction] routes to from [cur]: the detour parcel when one
    is selected elsewhere than under the agent, else the nearest delivery
    tile; no target when the agent picks up or no delivery tile is known. *)
Definition currentTarget (s : DeliveryStrategy) (cur : Position.t)
    : option (Z * Z) :=
  match result (evaluateDetourParcels s) with
  | Returned (Some detour) =>
      if isAtPosition (Parcel.x detour) (Parcel.y detour)
                      (Position.x cur) (Position.y cur)
      then None
      else Some (Parcel.x detour, Parcel.y detour)
  | Returned None =>
      match getClosestDeliveryTile (beliefs s) (Position.x cur) (Position.y cur) with
      | Some tile => Some (Position.x tile, Position.y tile)
      | None => None
      end
  | Threw _ => None
  end.

(** ** Updating the carried parcels, as the claim words it *)

(** After [updateCarriedParcels allParcels]: the carried parcels are those of
    [allParcels] carried by the agent's own id, none when the id is unknown;
    and if they went from some to none while a route was committed, the route
    is cleared and the block state reset. *)
Definition clearsOnLastDelivery (s : DeliveryStrategy)
    (allParcels : list Parcel.t) : Prop :=
  let r := updateCarriedParcels allParcels s in
  carriedParcels (final r)
  = match myId (beliefs s) with
    | Some me =>
        filter (fun p => strictEq (Parcel.carriedBy p) (Some me)) allParcels
    | None => []
    end
  /\ (carriedParcels s <> [] ->
      carriedParcels (final r) = [] ->
      deliveryPath s <> [] ->
      deliveryPath (final r) = [] /\ blockStateReset (final r)).

(** ** A test world

    A corridor along the row [y = 0]: the router walks east or west one cell
    at a time; delivery tiles and agents are given per test. *)

Fixpoint eastward (from : Z) (n : nat) : list Position.t :=
  match n with
  | O => []
  | S k => Position.mk (from + 1) 0 :: eastward (from + 1) k
  end.

Fixpoint westward (from : Z) (n : nat) : list Position.t :=
  match n with
  | O => []
  | S k => Position.mk (from - 1) 0 :: westward (from - 1) k
  end.

Definition corridor : Pathfinder := {|
  findPath := fun x1 y1 x2 y2 =>
    if negb ((y1 =? 0) && (y2 =? 0)) then []
    else if x1 <=? x2 then eastward x1 (Z.to_nat (x2 - x1))
    else westward x1 (Z.to_nat (x1 - x2));
  getActionToNextStep := fun cx cy nx ny =>
    if negb (cy =? ny) then None
    else if nx =? cx + 1 then Some "right"%string
    else if nx =? cx - 1 then Some "left"%string
    else None
|}.

Definition corridorBeliefs (me : option string) (pos : option Position.t)
    (others : option (list Agent.t)) (parcels : list Parcel.t)
    (deliveryX : option Z) : Beliefs := {|
  myId := me;
  myPosition := pos;
  agents := others;
  availableParcels := parcels;
  isDeliveryTile := fun x y =>
    match deliveryX with
    | Some d => (x =? d) && (y =? 0)
    | None => false
    end;
  getClosestDeliveryTile := fun _ _ =>
    match deliveryX with
    | Some d => Some (Position.mk d 0)
    | None => None
    end;
  calculateDistance := fun x y =>
    match pos with
    | Some p => Z.abs (x - Position.x p) + Z.abs (y - Position.y p)
    | None => 0
    end
|}.

Definition newStrategy (b : Beliefs) (pf : Pathfinder)
    (threshold maxDetour timeout : Z) : DeliveryStrategy := {|
  beliefs := b;
  pathfinder := pf;
  carriedParcels := [];
  deliveryThreshold := threshold;
  maxDetourDistance := maxDetour;
  deliveryPath := [];
  blockedTargetTile := None;
  blockedCounter := 0;
  BLOCKED_TIMEOUT := timeout
|}.


(** Scenario: the agent [me] at (0,0) carries [p0]; a free parcel of reward 50
    lies at (1,0); threshold 10, detour bound 5, delivery tile at (5,0). *)
Definition carriedOne : Parcel.t :=
  Parcel.mk "p0" 0 0 20 (Some "me"%string).

Definition freeParcel : Parcel.t :=
  Parcel.mk "p1" 1 0 50 None.

Definition detourWorld : DeliveryStrategy :=
  set_carriedParcels [carriedOne]
    (newStrategy
       (corridorBeliefs (Some "me"%string) (Some (Position.mk 0 0)) (Some [])
                        [carriedOne; freeParcel] (Some 5))
       corridor 10 5 3).

(** Scenario: another agent stands on (1,0), the first cell of the committed
    route from (0,0) to the delivery tile at (5,0); the block state is given. *)
Definition blockedBeliefs : Beliefs :=
  corridorBeliefs (Some "me"%string) (Some (Position.mk 0 0))
                  (Some [Agent.mk "other" (1 # 1) (0 # 1)])
                  [carriedOne] (Some 5).

Definition blockedWorld (tile : option Position.t) (counter : Z)
    : DeliveryStrategy :=
  set_blockedCounter counter
    (set_blockedTargetTile tile
       (set_deliveryPath (eastward 0 5)
          (set_carriedParcels [carriedOne]
             (newStrategy blockedBeliefs corridor 10 5 3)))).

(** Scenario: nobody else around; the route from (0,0) to (5,0) is committed. *)
Definition freeWorld (pf : Pathfinder) : DeliveryStrategy :=
  set_deliveryPath (eastward 0 5)
    (set_carriedParcels [carriedOne]
       (newStrategy
          (corridorBeliefs (Some "me"%string) (Some (Position.mk 0 0)) (Some [])
                           [carriedOne] (Some 5))
          pf 10 5 3)).

(** A router that cannot tell any move. *)
Definition lostRouter : Pathfinder := {|
  findPath := findPath corridor;
  getActionToNextStep := fun _ _ _ _ => None
|}.

(** Scenario: as [blockedWorld], but the agent does not know its own id. *)
Definition anonymousWorld : DeliveryStrategy :=
  set_deliveryPath (eastward 0 5)
    (set_carriedParcels [carriedOne]
       (newStrategy
          (corridorBeliefs None (Some (Position.mk 0 0))
                           (Some [Agent.mk "other" (1 # 1) (0 # 1)])
                           [carriedOne] (Some 5))
          corridor 10 5 3)).

(** Scenario: the agent stands on the delivery tile (5,0) with a parcel, while
    a block on (4,0) is still recorded from two earlier turns. *)
Definition staleBlockOnDelivery : DeliveryStrategy :=
  set_blockedCounter 2
    (set_blockedTargetTile (Some (Position.mk 4 0))
       (set_deliveryPath [Position.mk 4 0; Position.mk 5 0]
          (set_carriedParcels [carriedOne]
             (newStrategy
                (corridorBeliefs (Some "me"%string) (Some (Position.mk 5 0))
                                 (Some []) [carriedOne] (Some 5))
                corridor 10 5 3)))).

(** Scenario: the agent at (3,0) with the same recorded block, and no delivery tile known
    any more. *)
Definition staleBlockNoDelivery : DeliveryStrategy :=
  set_blockedCounter 2
    (set_blockedTargetTile (Some (Position.mk 4 0))
       (set_deliveryPath [Position.mk 4 0; Position.mk 5 0]
          (set_carriedParcels [carriedOne]
             (newStrategy
                (corridorBeliefs (Some "me"%string) (Some (Position.mk 3 0))
                                 (Some []) [carriedOne] None)
                corridor 10 5 3)))).

(** ** Notions for the properties of the strategy as a whole *)

(** Lines 60-65 and 77-84 of [getDeliveryAction]: make the committed route
    lead to the target, then follow it; [before] are the router calls made so
    far in the turn. *)
Definition routeThenFollow (s : DeliveryStrategy) (cx cy targetX targetY : Z)
    (before : list PfCall) : Run (option Action) :=
  let stale := needsNewPath (deliveryPath s) targetX targetY in
  let routed :=
    if stale
    then set_deliveryPath (findPath (pathfinder s) cx cy targetX targetY) s
    else s in
  let followed := followDeliveryPath cx cy routed in
  mkRun (result followed) (final followed)
        (before
         ++ (if stale then [CallFindPath cx cy targetX targetY] else [])
         ++ calls followed).

(** A block state the strategy can be in: (null, 0), or a recorded tile with
    a count of at least one which is below the timeout unless it is the
    first count. *)
Definition blockStateOk (s : DeliveryStrategy) : Prop :=
  match blockedTargetTile s with
  | None => blockedCounter s = 0
  | Some _ =>
      1 <= blockedCounter s
      /\ (blockedCounter s < BLOCKED_TIMEOUT s \/ blockedCounter s = 1)
  end.

(** Two states with the same collaborators and configuration. *)
Definition sameSetup (s s' : DeliveryStrategy) : Prop :=
  beliefs s' = beliefs s
  /\ pathfinder s' = pathfinder s
  /\ deliveryThreshold s' = deliveryThreshold s
  /\ maxDetourDistance s' = maxDetourDistance s
  /\ BLOCKED_TIMEOUT s' = BLOCKED_TIMEOUT s.

Definition isFindPathCall (c : PfCall) : bool :=
  match c with
  | CallFindPath _ _ _ _ => true
  | CallGetActionToNextStep _ _ _ _ => false
  end.

(** Scenario: a free parcel of reward 50 lies under the agent at (0,0). *)
Definition parcelHere : Parcel.t :=
  Parcel.mk "p2" 0 0 50 None.

Definition pickupWorld : DeliveryStrategy :=
  set_carriedParcels [carriedOne]
    (newStrategy
       (corridorBeliefs (Some "me"%string) (Some (Position.mk 0 0)) (Some [])
                        [carriedOne; parcelHere] (Some 5))
       corridor 10 5 3).

(** Scenario: the agent stands off the corridor at (0,1), from where the
    router finds no route; a free parcel lies next to it. *)
Definition strandedWorld : DeliveryStrategy :=
  set_carriedParcels [carriedOne]
    (newStrategy
       (corridorBeliefs (Some "me"%string) (Some (Position.mk 0 1)) (Some [])
                        [carriedOne; freeParcel] (Some 5))
       corridor 10 5 3).

(** Scenario: nothing is carried. *)
Definition emptyHanded : DeliveryStrategy :=
  newStrategy
    (corridorBeliefs (Some "me"%string) (Some (Position.mk 0 0)) (Some [])
                     [freeParcel] (Some 5))
    corridor 10 5 3.

(** The agent's coordinates lie in the unit square of cell [(x, y)]. *)
Definition standsInCell (agent : Agent.t) (x y : Z) : Prop :=
  (inject_Z x <= Agent.x agent /\ Agent.x agent < inject_Z x + 1)%Q
  /\ (inject_Z y <= Agent.y agent /\ Agent.y agent < inject_Z y + 1)%Q.

(** The working fields replaced, the collaborators and configuration kept. *)
Definition withWorkingFields (carried : list Parcel.t) (path : list Position.t)
    (tile : option Position.t) (counter : Z) (s : DeliveryStrategy)
    : DeliveryStrategy :=
  set_carriedParcels carried
    (set_blockedCounter counter
       (set_blockedTargetTile tile (set_deliveryPath path s))).

(** Scenario: another agent is moving between (1,0) and (2,0), and this
    agent's own record is in the list as well. *)
Definition inTransitWorld : DeliveryStrategy :=
  set_deliveryPath (eastward 0 5)
    (set_carriedParcels [carriedOne]
       (newStrategy
          (corridorBeliefs (Some "me"%string) (Some (Position.mk 0 0))
                           (Some [Agent.mk "me" (0 # 1) (0 # 1);
                                  Agent.mk "other" (8 # 5) (0 # 1)])
                           [carriedOne] (Some 5))
          corridor 10 5 3)).

(** The runtime replaces the belief store between two calls. *)
Definition set_beliefs (v : Beliefs) (s : DeliveryStrategy) :=
  {| beliefs := v; pathfinder := pathfinder s;
     carriedParcels := carriedParcels s;
     deliveryThreshold := deliveryThreshold s;
     maxDetourDistance := maxDetourDistance s;
     deliveryPath := deliveryPath s;
     blockedTargetTile := blockedTargetTile s;
     blockedCounter := blockedCounter s;
     BLOCKED_TIMEOUT := BLOCKED_TIMEOUT s |}.

(** The states a strategy can be in: as constructed, after any of its three
    state-changing methods, and after the beliefs changed under it. *)
Inductive reachableState : DeliveryStrategy -> Prop :=
| reach_constructed (b : Beliefs) (pf : Pathfinder) (threshold maxDetour timeout : Z) :
    reachableState (newStrategy b pf threshold maxDetour timeout)
| reach_beliefs (b : Beliefs) (s : DeliveryStrategy) :
    reachableState s -> reachableState (set_beliefs b s)
| reach_update (allParcels : list Parcel.t) (s : DeliveryStrategy) :
    reachableState s ->
    reachableState (final (updateCarriedParcels allParcels s))
| reach_action (s : DeliveryStrategy) :
    reachableState s -> reachableState (final (getDeliveryAction s))
| reach_follow (currentX currentY : Z) (s : DeliveryStrategy) :
    reachableState s ->
    reachableState (final (followDeliveryPath currentX currentY s)).

(** ** Three claims as they are worded *)

(** The quotient [reward / (addedSteps + 1)] as a rational number. *)
Definition exactScore (s : DeliveryStrategy) (cur tile : Position.t)
    (p : Parcel.t) : Q :=
  inject_Z (Parcel.reward p) / inject_Z (addedSteps s cur tile p + 1).

(** Detour evaluation returns only a valid candidate, one of greatest
    quotient among all valid candidates and the first of those; it returns
    nothing only when there is no valid candidate. *)
Definition choosesBestDetour (s : DeliveryStrategy) (cur tile : Position.t)
    : Prop :=
  match result (evaluateDetourParcels s) with
  | Returned (Some p) =>
      validDetour s cur tile p
      /\ (forall q, In q (availableParcels (beliefs s)) ->
                    validDetour s cur tile q ->
                    (exactScore s cur tile q <= exactScore s cur tile p)%Q)
      /\ exists before after,
           availableParcels (beliefs s) = before ++ p :: after
           /\ forall q, In q before ->
                        validDetour s cur tile q ->
                        (exactScore s cur tile q < exactScore s cur tile p)%Q
  | Returned None =>
      forall q, In q (availableParcels (beliefs s)) -> ~ validDetour s cur tile q
  | Threw _ => False
  end.

(** Some agent of the collection other than this one is on cell [(x, y)],
    whether or not this agent knows its own id. *)
Definition agentStandsOn (s : DeliveryStrategy) (x y : Z) : Prop :=
  exists others agent,
    agents (beliefs s) = Some others
    /\ In agent others
    /\ otherAgentAt s x y agent.

(** A call on a path whose first step has an agent on it and is the recorded
    tile counts the turn, and clears the route exactly when the count reaches
    the timeout. *)
Definition countsBlockedTurn (currentX currentY : Z) (s : DeliveryStrategy)
    : Prop :=
  forall nextStep rest tile,
    deliveryPath s = nextStep :: rest ->
    agentStandsOn s (Position.x nextStep) (Position.y nextStep) ->
    blockedTargetTile s = Some tile ->
    Position.x tile = Position.x nextStep ->
    Position.y tile = Position.y nextStep ->
    let r := followDeliveryPath currentX currentY s in
    result r = Returned None
    /\ (BLOCKED_TIMEOUT s <= blockedCounter s + 1 ->
        deliveryPath (final r) = [] /\ blockStateReset (final r))
    /\ (blockedCounter s + 1 < BLOCKED_TIMEOUT s ->
        deliveryPath (final r) = deliveryPath s
        /\ blockedTargetTile (final r) = blockedTargetTile s
        /\ blockedCounter (final r) = blockedCounter s + 1).

(** A call on a path whose first step has an agent on it and is not the
    recorded tile records it with a count of exactly one. *)
Definition recordsNewBlock (currentX currentY : Z) (s : DeliveryStrategy)
    : Prop :=
  forall nextStep rest,
    deliveryPath s = nextStep :: rest ->
    agentStandsOn s (Position.x nextStep) (Position.y nextStep) ->
    (forall tile, blockedTargetTile s = Some tile ->
                  Position.x tile <> Position.x nextStep
                  \/ Position.y tile <> Position.y nextStep) ->
    let r := followDeliveryPath currentX currentY s in
    result r = Returned None
    /\ blockedTargetTile (final r)
       = Some (Position.mk (Position.x nextStep) (Position.y nextStep))
    /\ blockedCounter (final r) = 1
    /\ deliveryPath (final r) = deliveryPath s.

(** Scenario: four free parcels around the agent at (0,0), delivery tile at
    (5,0).  Those at (1,0), (2,0) and (3,0) lie on the way home, the one at
    (-1,0) costs two more steps. *)
Definition cheapAhead : Parcel.t := Parcel.mk "a" 1 0 20 None.
Definition richBehind : Parcel.t := Parcel.mk "w" (-1) 0 90 None.
Definition goodAhead : Parcel.t := Parcel.mk "b" 2 0 50 None.
Definition goodFurther : Parcel.t := Parcel.mk "c" 3 0 50 None.

Definition choiceWorld : DeliveryStrategy :=
  set_carriedParcels [carriedOne]
    (newStrategy
       (corridorBeliefs (Some "me"%string) (Some (Position.mk 0 0)) (Some [])
                        [carriedOne; cheapAhead; richBehind; goodAhead;
                         goodFurther]
                        (Some 5))
       corridor 10 5 3).

(** Scenario: two parcels behind the agent whose quotients,
    [(5 * 2^50 + 1) / 5] and [(3 * 2^50 + 1) / 3], differ but round to the
    same double. *)
Definition nearFifth : Parcel.t :=
  Parcel.mk "f" (-2) 0 (5 * 2 ^ 50 + 1) None.
Definition nearThird : Parcel.t :=
  Parcel.mk "t" (-1) 0 (3 * 2 ^ 50 + 1) None.

Definition roundingWorld : DeliveryStrategy :=
  set_carriedParcels [carriedOne]
    (newStrategy
       (corridorBeliefs (Some "me"%string) (Some (Position.mk 0 0)) (Some [])
                        [nearFifth; nearThird] (Some 5))
       corridor 10 5 3).

(** A router that knows a three-step way from (1,0) to (5,0) but walks the
    corridor otherwise, so that going by (1,0) is one step shorter than the
    route it gives from (0,0). *)
Definition tunnelRouter : Pathfinder := {|
  findPath := fun x1 y1 x2 y2 =>
    if (x1 =? 1) && (y1 =? 0) && (x2 =? 5) && (y2 =? 0)
    then [Position.mk 2 0; Position.mk 4 0; Position.mk 5 0]
    else findPath corridor x1 y1 x2 y2;
  getActionToNextStep := getActionToNextStep corridor
|}.

(** Scenario: a threshold of -1 and a free parcel of reward 0 at (1,0). *)
Definition worthless : Parcel.t := Parcel.mk "z" 1 0 0 None.

Definition negativeThresholdWorld : DeliveryStrategy :=
  set_carriedParcels [carriedOne]
    (newStrategy
       (corridorBeliefs (Some "me"%string) (Some (Position.mk 0 0)) (Some [])
                        [worthless] (Some 5))
       tunnelRouter (-1) 5 3).

(** Scenario: as [anonymousWorld], with (1,0) recorded as blocked once. *)
Definition anonymousRecorded : DeliveryStrategy :=
  set_blockedCounter 1
    (set_blockedTargetTile (Some (Position.mk 1 0)) anonymousWorld).

(** What it means that [isBlockedByOtherAgent] does not report cell [(x, y)]
    as blocked: the agent's own id is unknown, or the beliefs hold no agents
    collection, or no agent of the collection with another id is in the
    cell. *)
Definition notReportedBlocked (s : DeliveryStrategy) (x y : Z) : Prop :=
  truthy (myId (beliefs s)) = false
  \/ agents (beliefs s) = None
  \/ exists others,
       agents (beliefs s) = Some others
       /\ forall agent, In agent others -> ~ otherAgentAt s x y agent.

(** * Properties *)

(** ** Stepping through a method *)

Lemma run_eta {A} (r : Run A) : mkRun (result r) (final r) (calls r) = r.
Proof. destruct r; reflexivity. Qed.

Lemma bind_ret {A B} (a : A) (k : A -> M B) (s : DeliveryStrategy) :
  bind (ret a) k s = k a s.
Proof. unfold bind, ret. cbn. apply run_eta. Qed.

Lemma bind_read {A B} (f : DeliveryStrategy -> A) (k : A -> M B)
    (s : DeliveryStrategy) :
  bind (read f) k s = k (f s) s.
Proof. unfold bind, read. cbn. apply run_eta. Qed.

Lemma bind_write {B} (upd : DeliveryStrategy -> DeliveryStrategy)
    (k : unit -> M B) (s : DeliveryStrategy) :
  bind (write upd) k s = k tt (upd s).
Proof. unfold bind, write. cbn. apply run_eta. Qed.

Lemma bind_throw {A B} (e : string) (k : A -> M B) (s : DeliveryStrategy) :
  bind (throw e) k s = mkRun (Threw e) s [].
Proof. reflexivity. Qed.

Lemma bind_callFindPath {B} (x1 y1 x2 y2 : Z) (k : list Position.t -> M B)
    (s : DeliveryStrategy) :
  bind (callFindPath x1 y1 x2 y2) k s
  = let r := k (findPath (pathfinder s) x1 y1 x2 y2) s in
    mkRun (result r) (final r) (CallFindPath x1 y1 x2 y2 :: calls r).
Proof. reflexivity. Qed.

Lemma bind_callGetActionToNextStep {B} (cx cy nx ny : Z)
    (k : option string -> M B) (s : DeliveryStrategy) :
  bind (callGetActionToNextStep cx cy nx ny) k s
  = let r := k (getActionToNextStep (pathfinder s) cx cy nx ny) s in
    mkRun (result r) (final r) (CallGetActionToNextStep cx cy nx ny :: calls r).
Proof. reflexivity. Qed.

Lemma bind_assoc {A B C} (m : M A) (k : A -> M B) (h : B -> M C)
    (s : DeliveryStrategy) :
  bind (bind m k) h s = bind m (fun a => bind (k a) h) s.
Proof.
  unfold bind. destruct (m s) as [[a|e] s1 c1]; cbn; [|reflexivity].
  destruct (k a s1) as [[b|e] s2 c2]; cbn; [|reflexivity].
  rewrite app_assoc. reflexivity.
Qed.

Create Rewrite HintDb method.
#[global] Hint Rewrite @bind_ret @bind_read @bind_write @bind_throw
  @bind_callFindPath @bind_callGetActionToNextStep @bind_assoc : method.

(** Runs a method as far as its tests allow. *)
Ltac step := autorewrite with method; cbv zeta; cbn [result final calls].

(** ** Detour evaluation *)

Lemma detourLoop_run (s : DeliveryStrategy) (cur tile : Position.t)
    (parcels : list Parcel.t) :
  forall best bestScore,
    detourLoop cur tile
      (routeLength s (Position.x cur) (Position.y cur)
                     (Position.x tile) (Position.y tile))
      parcels best bestScore s
    = mkRun (Returned (pickBest (passesRouting s cur tile) (detourScore s cur tile)
                                parcels best bestScore))
            s (loopCalls s cur tile parcels).
Proof.
  induction parcels as [|p rest IH]; intros best bestScore.
  - reflexivity.
  - cbn [detourLoop pickBest loopCalls].
    unfold bind, callFindPath, read. cbn [result final calls].
    assert (Hok : passesRouting s cur tile p
                  = legReachable s (Position.x cur) (Position.y cur)
                                   (Parcel.x p) (Parcel.y p)
                    && legReachable s (Parcel.x p) (Parcel.y p)
                                      (Position.x tile) (Position.y tile)
                    && (addedSteps s cur tile p <=? maxDetourDistance s))
      by reflexivity.
    assert (Hf : detourScore s cur tile p
                 = js_div (Parcel.reward p) (addedSteps s cur tile p + 1))
      by reflexivity.
    rewrite Hok, Hf. clear Hok Hf.
    set (ok := passesRouting s cur tile) in *.
    set (f := detourScore s cur tile) in *.
    unfold addedSteps, legReachable.
    set (base := routeLength s (Position.x cur) (Position.y cur)
                               (Position.x tile) (Position.y tile)) in *.
    unfold routeLength.
    destruct ((len (findPath (pathfinder s) (Position.x cur) (Position.y cur)
                             (Parcel.x p) (Parcel.y p)) =? 0) && _) eqn:E1;
      cbn [negb andb result final calls].
    + rewrite IH. reflexivity.
    + destruct ((len (findPath (pathfinder s) (Parcel.x p) (Parcel.y p)
                               (Position.x tile) (Position.y tile)) =? 0) && _)
        eqn:E2; cbn [negb andb result final calls].
      * rewrite IH. reflexivity.
      * destruct (_ <=? maxDetourDistance s).
        -- destruct (js_gt _ bestScore); rewrite IH; reflexivity.
        -- rewrite IH. reflexivity.
Qed.

(** *** Order facts about scores *)

Lemma js_gt_Finite (p q : Q) :
  js_gt (Finite p) (Finite q) = true <-> (q < p)%Q.
Proof.
  cbn. rewrite negb_true_iff. split; intros H.
  - apply Qnot_le_lt. intros Hle. apply Qle_bool_iff in Hle. congruence.
  - destruct (Qle_bool p q) eqn:E; [|reflexivity].
    apply Qle_bool_iff in E. exfalso. exact (Qlt_not_le _ _ H E).
Qed.

Lemma js_gt_Finite_false (p q : Q) :
  js_gt (Finite p) (Finite q) = false <-> (p <= q)%Q.
Proof.
  cbn. rewrite negb_false_iff. apply Qle_bool_iff.
Qed.

Lemma js_gt_trans (a b c : score) :
  js_gt a b = true -> js_gt b c = true -> js_gt a c = true.
Proof.
  destruct a as [| |p|], b as [| |q|], c as [| |r|];
    try (cbn; congruence); intros Hab Hbc.
  apply js_gt_Finite in Hab. apply js_gt_Finite in Hbc. apply js_gt_Finite.
  exact (Qlt_trans _ _ _ Hbc Hab).
Qed.

Lemma js_gt_above (a b c : score) :
  comparable c -> js_gt a b = true -> js_gt c b = false -> js_gt a c = true.
Proof.
  unfold comparable.
  destruct a as [| |p|], b as [| |q|], c as [| |r|];
    try (cbn; congruence); intros _ Hab Hcb.
  apply js_gt_Finite in Hab. apply js_gt_Finite_false in Hcb.
  apply js_gt_Finite. exact (Qle_lt_trans _ _ _ Hcb Hab).
Qed.

Lemma js_gt_irrefl (a : score) : js_gt a a = false.
Proof.
  destruct a as [| |p|]; try reflexivity.
  apply js_gt_Finite_false. apply Qle_refl.
Qed.

(** *** What the running maximum selects *)

Section PickBest.
Context {A : Type}.
Variable ok : A -> bool.
Variable f : A -> score.
Hypothesis ok_comparable : forall a, ok a = true -> comparable (f a).

Lemma pickBest_from_some (l : list A) :
  forall before p0 after,
    selects ok f before p0 after ->
    exists before' p after',
      pickBest ok f l (Some p0) (f p0) = (Some p, f p)
      /\ before ++ p0 :: after ++ l = before' ++ p :: after'
      /\ selects ok f before' p after'.
Proof.
  induction l as [|a rest IH]; intros before p0 after Hsel.
  - exists before, p0, after. rewrite app_nil_r. cbn. auto.
  - destruct Hsel as (Hok0 & Hbefore & Hafter).
    cbn [pickBest]. destruct (ok a) eqn:Eok.
    + destruct (js_gt (f a) (f p0)) eqn:Egt.
      * destruct (IH (before ++ p0 :: after) a []) as (b' & p & a' & Hrun & Hsplit & Hsel').
        { split; [exact Eok|]. split; [|intros q []].
          intros q Hin Hq. apply in_app_or in Hin.
          destruct Hin as [Hin | [<- | Hin]].
          - exact (js_gt_trans _ _ _ Egt (Hbefore q Hin Hq)).
          - exact Egt.
          - apply js_gt_above with (b := f p0); auto. }
        exists b', p, a'. split; [exact Hrun|]. split; [|exact Hsel'].
        rewrite <- Hsplit. cbn [app]. rewrite <- app_assoc. reflexivity.
      * destruct (IH before p0 (after ++ [a])) as (b' & p & a' & Hrun & Hsplit & Hsel').
        { split; [exact Hok0|]. split; [exact Hbefore|].
          intros q Hin Hq. apply in_app_or in Hin.
          destruct Hin as [Hin | [<- | []]]; auto. }
        exists b', p, a'. split; [exact Hrun|]. split; [|exact Hsel'].
        rewrite <- Hsplit. rewrite <- app_assoc. reflexivity.
    + destruct (IH before p0 (after ++ [a])) as (b' & p & a' & Hrun & Hsplit & Hsel').
      { split; [exact Hok0|]. split; [exact Hbefore|].
        intros q Hin Hq. apply in_app_or in Hin.
        destruct Hin as [Hin | [<- | []]]; auto. congruence. }
      exists b', p, a'. split; [exact Hrun|]. split; [|exact Hsel'].
      rewrite <- Hsplit. rewrite <- app_assoc. reflexivity.
Qed.

Lemma pickBest_from_none (l : list A) :
  forall skipped,
    (forall q, In q skipped -> ok q = false) ->
    (fst (pickBest ok f l None NegInfinity) = None
     /\ forall q, In q (skipped ++ l) -> ok q = false)
    \/ exists before p after,
         pickBest ok f l None NegInfinity = (Some p, f p)
         /\ skipped ++ l = before ++ p :: after
         /\ selects ok f before p after.
Proof.
  induction l as [|a rest IH]; intros skipped Hskipped.
  - left. rewrite app_nil_r. cbn. auto.
  - cbn [pickBest]. destruct (ok a) eqn:Eok.
    + right. pose proof (ok_comparable a Eok) as Hc.
      unfold comparable in Hc. rewrite Hc.
      destruct (pickBest_from_some rest skipped a []) as (b' & p & a' & Hrun & Hsplit & Hsel').
      { split; [exact Eok|]. split; [|intros q []].
        intros q Hin Hq. rewrite (Hskipped q Hin) in Hq. discriminate. }
      exists b', p, a'. auto.
    + destruct (IH (skipped ++ [a])) as [[Hnone Hall] | (b' & p & a' & Hrun & Hsplit & Hsel')].
      { intros q Hin. apply in_app_or in Hin.
        destruct Hin as [Hin | [<- | []]]; auto. }
      * left. split; [exact Hnone|]. rewrite <- app_assoc in Hall. exact Hall.
      * right. exists b', p, a'. rewrite <- app_assoc in Hsplit. auto.
Qed.
End PickBest.

Lemma pickBest_filter {A} (g ok : A -> bool) (f : A -> score) (l : list A) :
  forall best bestScore,
    pickBest ok f (filter g l) best bestScore
    = pickBest (fun a => g a && ok a) f l best bestScore.
Proof.
  induction l as [|a rest IH]; intros best bestScore; [reflexivity|].
  cbn [filter pickBest]. destruct (g a); cbn [andb pickBest].
  - destruct (ok a); [destruct (js_gt (f a) bestScore)|]; apply IH.
  - apply IH.
Qed.

Lemma pickBest_ext {A} (ok ok' : A -> bool) (f : A -> score) (l : list A) :
  (forall a, ok a = ok' a) ->
  forall best bestScore,
    pickBest ok f l best bestScore = pickBest ok' f l best bestScore.
Proof.
  intros Hext. induction l as [|a rest IH]; intros best bestScore;
    [reflexivity|].
  cbn [pickBest]. rewrite <- Hext.
  destruct (ok a); [destruct (js_gt (f a) bestScore)|]; apply IH.
Qed.

(** *** [evaluateDetourParcels] as one run *)

(** The four ways a call can go. *)
Lemma evaluateDetourParcels_run (s : DeliveryStrategy) :
  evaluateDetourParcels s =
  match myPosition (beliefs s) with
  | None => mkRun (Threw "TypeError") s []
  | Some cur =>
      match getClosestDeliveryTile (beliefs s) (Position.x cur) (Position.y cur) with
      | None => mkRun (Returned None) s []
      | Some tile =>
          let base := CallFindPath (Position.x cur) (Position.y cur)
                                   (Position.x tile) (Position.y tile) in
          if legReachable s (Position.x cur) (Position.y cur)
                            (Position.x tile) (Position.y tile)
          then mkRun (Returned
                        (fst (pickBest (fun p => passesFilters s p
                                                 && passesRouting s cur tile p)
                                       (detourScore s cur tile)
                                       (availableParcels (beliefs s))
                                       None NegInfinity)))
                     s
                     (base :: loopCalls s cur tile (potentialDetourParcels s))
          else mkRun (Returned None) s [base]
      end
  end.
Proof.
  unfold evaluateDetourParcels. step.
  destruct (myPosition (beliefs s)) as [cur|]; [|reflexivity].
  destruct (getClosestDeliveryTile _ _ _) as [tile|]; [|reflexivity].
  step. unfold legReachable at 1, routeLength at 1.
  destruct ((len _ =? 0) && _) eqn:E; cbn [negb]; [reflexivity|].
  step. fold (routeLength s (Position.x cur) (Position.y cur)
                            (Position.x tile) (Position.y tile)).
  unfold bind. rewrite detourLoop_run. cbn [result final calls ret app].
  fold (potentialDetourParcels s).
  rewrite app_nil_r. f_equal. f_equal. f_equal.
  unfold potentialDetourParcels. rewrite !pickBest_filter.
  apply pickBest_ext. intros a. unfold passesFilters.
  rewrite <- !andb_assoc. reflexivity.
Qed.

Lemma legReachable_iff (s : DeliveryStrategy) (x1 y1 x2 y2 : Z) :
  legReachable s x1 y1 x2 y2 = true <-> reachable s x1 y1 x2 y2.
Proof.
  unfold legReachable, reachable, isAtPosition.
  rewrite negb_true_iff, andb_false_iff, negb_false_iff, andb_true_iff.
  rewrite Z.eqb_neq, !Z.eqb_eq. split.
  - intros [H | H] H0; [contradiction | exact H].
  - intros H. destruct (Z.eq_dec (routeLength s x1 y1 x2 y2) 0); auto.
Qed.

Lemma validDetour_iff (s : DeliveryStrategy) (cur tile : Position.t) (p : Parcel.t) :
  passesFilters s p && passesRouting s cur tile p = true
  <-> validDetour s cur tile p.
Proof.
  unfold passesFilters, passesRouting.
  rewrite !andb_true_iff, negb_true_iff, Z.ltb_lt, !Z.leb_le, !legReachable_iff.
  split.
  - intros [[[H1 H2] H3] [[H4 H5] H6]]. constructor; assumption.
  - intros [H1 H2 H3 H4 H5 H6]. auto 10.
Qed.

(** With a non-negative threshold every candidate has a positive reward, so
    its score is finite or [+Infinity]. *)
Lemma validDetour_comparable (s : DeliveryStrategy) (cur tile : Position.t)
    (p : Parcel.t) :
  0 <= deliveryThreshold s ->
  validDetour s cur tile p ->
  comparable (detourScore s cur tile p).
Proof.
  intros Hthr Hv. pose proof (detour_reward _ _ _ _ Hv) as Hr.
  unfold comparable, detourScore, js_div.
  destruct (_ =? 0); [|reflexivity].
  destruct (Z.ltb_spec 0 (Parcel.reward p)); [reflexivity | lia].
Qed.

Lemma js_gt_asym (a b : score) : js_gt a b = true -> js_gt b a = false.
Proof.
  intros H. destruct (js_gt b a) eqn:E; [|reflexivity].
  pose proof (js_gt_trans _ _ _ H E) as Hcycle.
  rewrite js_gt_irrefl in Hcycle. discriminate.
Qed.

Lemma pickBest_In {A} (ok : A -> bool) (f : A -> score) (l : list A) :
  forall best bestScore p,
    fst (pickBest ok f l best bestScore) = Some p ->
    In p l \/ best = Some p.
Proof.
  induction l as [|a rest IH]; intros best bestScore p H.
  - right. exact H.
  - cbn [pickBest] in H.
    destruct (ok a); [destruct (js_gt (f a) bestScore)|];
      apply IH in H; destruct H as [H | H]; cbn [In]; auto.
    injection H as ->. auto.
Qed.

(** Detour evaluation ends in the fields it started from. *)
Lemma evaluateDetourParcels_final (s : DeliveryStrategy) :
  final (evaluateDetourParcels s) = s.
Proof.
  rewrite evaluateDetourParcels_run.
  destruct (myPosition (beliefs s)) as [cur|]; [|reflexivity].
  destruct (getClosestDeliveryTile _ _ _) as [tile|]; [|reflexivity].
  cbv zeta. destruct (legReachable _ _ _ _ _); reflexivity.
Qed.

Lemma pickBest_ok {A} (ok : A -> bool) (f : A -> score) (l : list A) :
  forall best bestScore p,
    fst (pickBest ok f l best bestScore) = Some p ->
    ok p = true \/ best = Some p.
Proof.
  induction l as [|a rest IH]; intros best bestScore p H.
  - right. exact H.
  - cbn [pickBest] in H.
    destruct (ok a) eqn:Eok; [destruct (js_gt (f a) bestScore)|];
      apply IH in H; destruct H as [H | H]; auto.
    injection H as <-. auto.
Qed.

(** Whatever the threshold and the router, a parcel that is returned is a
    valid detour candidate. *)
Lemma evaluateDetourParcels_sound (s : DeliveryStrategy) (cur tile : Position.t)
    (p : Parcel.t) :
  myPosition (beliefs s) = Some cur ->
  getClosestDeliveryTile (beliefs s) (Position.x cur) (Position.y cur) = Some tile ->
  result (evaluateDetourParcels s) = Returned (Some p) ->
  validDetour s cur tile p.
Proof.
  intros Hpos Htile. rewrite evaluateDetourParcels_run, Hpos, Htile. cbv zeta.
  destruct (legReachable _ _ _ _ _); cbn [result]; [|discriminate].
  intros H. injection H as H. apply pickBest_ok in H.
  destruct H as [H | H]; [|discriminate].
  apply validDetour_iff. exact H.
Qed.

(** C1, as the code runs.  When the nearest delivery tile exists and is
    reachable, and [deliveryThreshold] is not negative,
    [evaluateDetourParcels] returns only a valid detour candidate: an
    available parcel that is uncarried, whose reward exceeds
    [deliveryThreshold], whose heuristic distance is at most
    [maxDetourDistance], both of whose route legs are reachable and whose
    [addedSteps] is at most [maxDetourDistance].  The parcel returned is the
    one maximizing [reward / (addedSteps + 1)] as JavaScript computes it (the
    quotient rounded to a double, [+Infinity] when [addedSteps] is -1) among
    the valid candidates: no valid candidate scores higher, and every valid
    candidate listed before it scores strictly lower, so the first of the
    best is kept.  Nothing is returned only when there is no valid candidate
    at all. *)
Theorem evaluateDetourParcels_best (s : DeliveryStrategy) (cur tile : Position.t) :
  myPosition (beliefs s) = Some cur ->
  getClosestDeliveryTile (beliefs s) (Position.x cur) (Position.y cur) = Some tile ->
  reachable s (Position.x cur) (Position.y cur) (Position.x tile) (Position.y tile) ->
  0 <= deliveryThreshold s ->
  match result (evaluateDetourParcels s) with
  | Returned (Some p) =>
      validDetour s cur tile p
      /\ (forall q, In q (availableParcels (beliefs s)) ->
                    validDetour s cur tile q ->
                    js_gt (detourScore s cur tile q) (detourScore s cur tile p)
                    = false)
      /\ exists before after,
           availableParcels (beliefs s) = before ++ p :: after
           /\ forall q, In q before ->
                        validDetour s cur tile q ->
                        js_gt (detourScore s cur tile p) (detourScore s cur tile q)
                        = true
  | Returned None =>
      forall q, In q (availableParcels (beliefs s)) -> ~ validDetour s cur tile q
  | Threw _ => False
  end.
Proof.
  intros Hpos Htile Hreach Hthr.
  rewrite evaluateDetourParcels_run, Hpos, Htile.
  apply legReachable_iff in Hreach. cbv zeta. rewrite Hreach.
  cbn [result].
  set (ok := fun p => passesFilters s p && passesRouting s cur tile p).
  set (f := detourScore s cur tile).
  assert (Hcmp : forall a, ok a = true -> comparable (f a)).
  { intros a Ha. apply validDetour_comparable; [exact Hthr|].
    apply validDetour_iff. exact Ha. }
  destruct (pickBest_from_none ok f Hcmp (availableParcels (beliefs s)) [])
    as [[Hnone Hall] | (before & p & after & Hrun & Hsplit & Hok & Hbefore & Hafter)].
  { intros q []. }
  - rewrite Hnone. intros q Hin Hv. apply validDetour_iff in Hv.
    fold (ok q) in Hv. rewrite (Hall q Hin) in Hv. discriminate.
  - rewrite Hrun. cbn [fst]. cbn [app] in Hsplit.
    split; [apply validDetour_iff; exact Hok|]. split.
    + intros q Hin Hv. apply validDetour_iff in Hv. fold (ok q) in Hv.
      rewrite Hsplit in Hin. apply in_app_or in Hin.
      destruct Hin as [Hin | [<- | Hin]].
      * apply js_gt_asym. auto.
      * apply js_gt_irrefl.
      * auto.
    + exists before, after. split; [exact Hsplit|].
      intros q Hin Hv. apply validDetour_iff in Hv. auto.
Qed.

(** Four valid candidates with scores 20, 30, 50 and 50: the first of the
    two best, at (2,0), is returned. *)
Lemma evaluateDetourParcels_best_witness :
  result (evaluateDetourParcels choiceWorld) = Returned (Some goodAhead)
  /\ match result (evaluateDetourParcels choiceWorld) with
     | Returned (Some p) =>
         validDetour choiceWorld (Position.mk 0 0) (Position.mk 5 0) p
         /\ (forall q, In q (availableParcels (beliefs choiceWorld)) ->
                       validDetour choiceWorld (Position.mk 0 0) (Position.mk 5 0) q ->
                       js_gt (detourScore choiceWorld (Position.mk 0 0) (Position.mk 5 0) q)
                             (detourScore choiceWorld (Position.mk 0 0) (Position.mk 5 0) p)
                       = false)
         /\ exists before after,
              availableParcels (beliefs choiceWorld) = before ++ p :: after
              /\ forall q, In q before ->
                           validDetour choiceWorld (Position.mk 0 0) (Position.mk 5 0) q ->
                           js_gt (detourScore choiceWorld (Position.mk 0 0) (Position.mk 5 0) p)
                                 (detourScore choiceWorld (Position.mk 0 0) (Position.mk 5 0) q)
                           = true
     | Returned None =>
         forall q, In q (availableParcels (beliefs choiceWorld)) ->
                   ~ validDetour choiceWorld (Position.mk 0 0) (Position.mk 5 0) q
     | Threw _ => False
     end.
Proof.
  split; [vm_compute; reflexivity|].
  apply (evaluateDetourParcels_best choiceWorld (Position.mk 0 0) (Position.mk 5 0)).
  - reflexivity.
  - reflexivity.
  - apply legReachable_iff. reflexivity.
  - simpl. lia.
Defined.

(** The candidates of that scenario and their scores, in list order. *)
Example choiceWorld_scores :
  map (fun p => (Parcel.id p,
                 passesFilters choiceWorld p
                 && passesRouting choiceWorld (Position.mk 0 0) (Position.mk 5 0) p,
                 js_gt (detourScore choiceWorld (Position.mk 0 0) (Position.mk 5 0)
                                    goodAhead)
                       (detourScore choiceWorld (Position.mk 0 0) (Position.mk 5 0) p)))
      (availableParcels (beliefs choiceWorld))
  = [("p0"%string, false, true); ("a"%string, true, true);
     ("w"%string, true, true); ("b"%string, true, false);
     ("c"%string, true, false)].
Proof. vm_compute. reflexivity. Qed.

(** Doubles nearest to a third, a tenth and minus a tenth, the ties at
    [2^53 + 1] and [2^53 + 3], and a quotient of small integers. *)
Example round53_values :
  Qeq_bool (round53 (1 # 3)) (6004799503160661 # 18014398509481984) = true
  /\ Qeq_bool (round53 (1 # 10)) (3602879701896397 # 36028797018963968) = true
  /\ Qeq_bool (round53 (- (1 # 10))) (- (3602879701896397 # 36028797018963968))
     = true
  /\ Qeq_bool (round53 (inject_Z (2 ^ 53 + 1))) (inject_Z (2 ^ 53)) = true
  /\ Qeq_bool (round53 (inject_Z (2 ^ 53 + 3))) (inject_Z (2 ^ 53 + 4)) = true
  /\ Qeq_bool (round53 (inject_Z 50 / inject_Z 3)) (4691249611844267 # 281474976710656)
     = true
  /\ Qeq_bool (round53 (inject_Z 90 / inject_Z 3)) (inject_Z 30) = true.
Proof. vm_compute. repeat split. Qed.

(** The two quotients of [roundingWorld] are different rationals and the same
    double, [2^50 + 1/4]. *)
Example rounding_tie :
  detourScore roundingWorld (Position.mk 0 0) (Position.mk 5 0) nearFifth
  = Finite (4503599627370497 # 4)
  /\ detourScore roundingWorld (Position.mk 0 0) (Position.mk 5 0) nearThird
     = Finite (4503599627370497 # 4)
  /\ Qle_bool (exactScore roundingWorld (Position.mk 0 0) (Position.mk 5 0) nearThird)
              (exactScore roundingWorld (Position.mk 0 0) (Position.mk 5 0) nearFifth)
     = false
  /\ result (evaluateDetourParcels roundingWorld) = Returned (Some nearFifth).
Proof. vm_compute. repeat split. Qed.

(** C1, as stated, fails in two ways.  With a threshold of -1, a parcel of
    reward 0 whose detour is one step shorter than the direct route is a
    valid candidate with score 0/0, which is never greater than [-Infinity]:
    nothing is returned.  And two candidates whose quotients differ can
    score the same double: the first is kept although the second has the
    greater quotient. *)
Lemma choosesBestDetour_fails :
  ~ choosesBestDetour negativeThresholdWorld (Position.mk 0 0) (Position.mk 5 0)
  /\ ~ choosesBestDetour roundingWorld (Position.mk 0 0) (Position.mk 5 0).
Proof.
  split; intros H; unfold choosesBestDetour in H.
  - replace (result (evaluateDetourParcels negativeThresholdWorld))
      with (@Returned (option Parcel.t) None) in H by (vm_compute; reflexivity).
    apply (H worthless); [left; reflexivity|].
    apply validDetour_iff. vm_compute. reflexivity.
  - replace (result (evaluateDetourParcels roundingWorld))
      with (Returned (Some nearFifth)) in H by (vm_compute; reflexivity).
    destruct H as (_ & Hmax & _).
    assert (Hle : (exactScore roundingWorld (Position.mk 0 0) (Position.mk 5 0)
                              nearThird
                   <= exactScore roundingWorld (Position.mk 0 0) (Position.mk 5 0)
                                 nearFifth)%Q).
    { apply Hmax; [right; left; reflexivity|].
      apply validDetour_iff. vm_compute. reflexivity. }
    apply Qle_bool_iff in Hle. vm_compute in Hle. discriminate Hle.
Qed.

(** C9.  A call to [evaluateDetourParcels] leaves every field of the strategy
    as it was, in particular [deliveryPath], [blockedTargetTile],
    [blockedCounter] and [carriedParcels].  It returns nothing or one of the
    available parcels of the beliefs; the only other way out is the
    [TypeError] of reading the coordinates of an unknown position. *)
Theorem evaluateDetourParcels_frame (s : DeliveryStrategy) :
  let r := evaluateDetourParcels s in
  final r = s
  /\ deliveryPath (final r) = deliveryPath s
  /\ blockedTargetTile (final r) = blockedTargetTile s
  /\ blockedCounter (final r) = blockedCounter s
  /\ carriedParcels (final r) = carriedParcels s
  /\ match result r with
     | Returned None => True
     | Returned (Some p) => In p (availableParcels (beliefs s))
     | Threw _ => myPosition (beliefs s) = None
     end.
Proof.
  cbv zeta. rewrite evaluateDetourParcels_run.
  destruct (myPosition (beliefs s)) as [cur|]; [|cbn; auto 10].
  destruct (getClosestDeliveryTile _ _ _) as [tile|]; [|cbn; auto 10].
  cbv zeta. destruct (legReachable _ _ _ _ _); cbn [result final]; [|auto 10].
  repeat (split; [reflexivity|]).
  destruct (fst (pickBest _ _ _ _ _)) as [p|] eqn:E; [|exact I].
  apply pickBest_In in E. destruct E as [E | E]; [exact E | discriminate].
Qed.

(** ** Path following and blocking recovery *)

Lemma strictEq_true_iff (a b : option string) : strictEq a b = true <-> a = b.
Proof.
  destruct a as [u|], b as [v|]; cbn; try (split; congruence).
  rewrite String.eqb_eq. split; congruence.
Qed.

Lemma isBlockedByOtherAgent_run (x y : Z) (s : DeliveryStrategy) :
  exists b,
    isBlockedByOtherAgent x y s = mkRun (Returned b) s []
    /\ (b = true <-> occupiedByOther s x y).
Proof.
  unfold isBlockedByOtherAgent, occupiedByOther. step.
  destruct (truthy (myId (beliefs s))) eqn:Eme.
  - destruct (agents (beliefs s)) as [others|].
    + eexists. split; [reflexivity|]. rewrite existsb_exists. split.
      * intros (agent & Hin & Hat). split; [reflexivity|].
        exists others, agent. split; [reflexivity|]. split; [exact Hin|].
        rewrite !andb_true_iff, negb_true_iff, !Z.eqb_eq in Hat.
        destruct Hat as [[Hid Hx] Hy]. repeat split; auto.
        intros Heq. apply strictEq_true_iff in Heq. congruence.
      * intros (_ & others' & agent & Hsome & Hin & Hid & Hx & Hy).
        injection Hsome as <-. exists agent. split; [exact Hin|].
        rewrite !andb_true_iff, negb_true_iff, !Z.eqb_eq. repeat split; auto.
        destruct (strictEq _ _) eqn:E; [|reflexivity].
        apply strictEq_true_iff in E. contradiction.
    + exists false. split; [reflexivity|]. split; [discriminate|].
      intros (_ & others & agent & H & _). discriminate.
  - exists false. split; [reflexivity|]. split; [discriminate|].
    intros [H _]. discriminate.
Qed.

Lemma isBlocked_true (x y : Z) (s : DeliveryStrategy) :
  occupiedByOther s x y ->
  isBlockedByOtherAgent x y s = mkRun (Returned true) s [].
Proof.
  intros H. destruct (isBlockedByOtherAgent_run x y s) as (b & Hrun & Hb).
  apply Hb in H. subst b. exact Hrun.
Qed.

Lemma isBlocked_false (x y : Z) (s : DeliveryStrategy) :
  ~ occupiedByOther s x y ->
  isBlockedByOtherAgent x y s = mkRun (Returned false) s [].
Proof.
  intros H. destruct (isBlockedByOtherAgent_run x y s) as (b & Hrun & Hb).
  destruct b; [exfalso; apply H, Hb; reflexivity | exact Hrun].
Qed.

Lemma bind_run {A B} (m : M A) (k : A -> M B) (s : DeliveryStrategy) (a : A) :
  m s = mkRun (Returned a) s [] -> bind m k s = k a s.
Proof. intros H. unfold bind. rewrite H. cbn. apply run_eta. Qed.

(** The run of [followDeliveryPath] when the first step is blocked: no
    action and no router call; the fields change by the recorded tile and the
    counter. *)
Lemma followDeliveryPath_blocked_run (currentX currentY : Z)
    (s : DeliveryStrategy) (nextStep : Position.t) (rest : list Position.t) :
  deliveryPath s = nextStep :: rest ->
  occupiedByOther s (Position.x nextStep) (Position.y nextStep) ->
  followDeliveryPath currentX currentY s =
  mkRun (Returned None)
        (if isSameTile (blockedTargetTile s)
                       (Position.x nextStep) (Position.y nextStep)
         then
           let counted := set_blockedCounter (blockedCounter s + 1) s in
           if BLOCKED_TIMEOUT s <=? blockedCounter s + 1
           then set_blockedCounter 0
                  (set_blockedTargetTile None (set_deliveryPath [] counted))
           else counted
         else
           set_blockedCounter 1
             (set_blockedTargetTile
                (Some (Position.mk (Position.x nextStep) (Position.y nextStep)))
                s))
        [].
Proof.
  intros Hpath Hocc.
  unfold followDeliveryPath. step. rewrite Hpath.
  rewrite (bind_run _ _ _ _ (isBlocked_true _ _ _ Hocc)). step.
  destruct (isSameTile _ _ _); step; [|reflexivity].
  cbn [set_blockedCounter blockedCounter BLOCKED_TIMEOUT].
  destruct (_ <=? _); unfold resetBlockState; step; reflexivity.
Qed.

(** C2, as the code runs.  [followDeliveryPath] on a non-empty path whose
    first step is seen as occupied by another agent (the agent knows its own
    id and the agents collection holds an agent with another id on that
    tile) and is the recorded [blockedTargetTile] returns no action and
    counts one more blocked turn.  If the incremented counter has reached
    [BLOCKED_TIMEOUT], this very call clears [deliveryPath] and resets the
    block state to (null, 0); as long as it has not, the path and the
    recorded tile stay as they were and the counter is one higher. *)
Theorem followDeliveryPath_still_blocked (currentX currentY : Z)
    (s : DeliveryStrategy) (nextStep tile : Position.t) (rest : list Position.t) :
  deliveryPath s = nextStep :: rest ->
  occupiedByOther s (Position.x nextStep) (Position.y nextStep) ->
  blockedTargetTile s = Some tile ->
  Position.x tile = Position.x nextStep ->
  Position.y tile = Position.y nextStep ->
  let r := followDeliveryPath currentX currentY s in
  result r = Returned None
  /\ (BLOCKED_TIMEOUT s <= blockedCounter s + 1 ->
      deliveryPath (final r) = [] /\ blockStateReset (final r))
  /\ (blockedCounter s + 1 < BLOCKED_TIMEOUT s ->
      deliveryPath (final r) = deliveryPath s
      /\ blockedTargetTile (final r) = blockedTargetTile s
      /\ blockedCounter (final r) = blockedCounter s + 1).
Proof.
  intros Hpath Hocc Htile Hx Hy. cbv zeta.
  rewrite (followDeliveryPath_blocked_run currentX currentY s nextStep rest
             Hpath Hocc).
  rewrite Htile. cbn [isSameTile]. rewrite Hx, Hy, !Z.eqb_refl.
  cbn [andb result final]. split; [reflexivity|].
  destruct (Z.leb_spec (BLOCKED_TIMEOUT s) (blockedCounter s + 1)) as [Hle | Hlt].
  - split; [intros _; cbn; unfold blockStateReset; auto | lia].
  - split; [lia | intros _; cbn; rewrite Hpath, Htile; auto].
Qed.

Lemma blockedWorld_occupied (tile : option Position.t) (counter : Z) :
  occupiedByOther (blockedWorld tile counter) 1 0.
Proof.
  split; [reflexivity|].
  exists [Agent.mk "other" (1 # 1) (0 # 1)], (Agent.mk "other" (1 # 1) (0 # 1)).
  split; [reflexivity|]. split; [left; reflexivity|].
  split; [discriminate|]. split; reflexivity.
Qed.

(** Third blocked turn of the specification's scenario: counter 2, timeout 3. *)
Lemma followDeliveryPath_still_blocked_witness :
  let s := blockedWorld (Some (Position.mk 1 0)) 2 in
  let r := followDeliveryPath 0 0 s in
  result r = Returned None
  /\ (BLOCKED_TIMEOUT s <= blockedCounter s + 1 ->
      deliveryPath (final r) = [] /\ blockStateReset (final r))
  /\ (blockedCounter s + 1 < BLOCKED_TIMEOUT s ->
      deliveryPath (final r) = deliveryPath s
      /\ blockedTargetTile (final r) = blockedTargetTile s
      /\ blockedCounter (final r) = blockedCounter s + 1).
Proof.
  apply (followDeliveryPath_still_blocked 0 0
           (blockedWorld (Some (Position.mk 1 0)) 2)
           (Position.mk 1 0) (Position.mk 1 0) (eastward 1 4)).
  - reflexivity.
  - apply blockedWorld_occupied.
  - reflexivity.
  - reflexivity.
  - reflexivity.
Defined.

(** The three blocked turns of that scenario, one after the other: the
    counter goes 1, 2 with the route kept, and the third turn clears it. *)
Example blocked_three_turns :
  let s0 := blockedWorld None 0 in
  let r1 := followDeliveryPath 0 0 s0 in
  let r2 := followDeliveryPath 0 0 (final r1) in
  let r3 := followDeliveryPath 0 0 (final r2) in
  (result r1, deliveryPath (final r1), blockedCounter (final r1))
    = (Returned None, eastward 0 5, 1)
  /\ (result r2, deliveryPath (final r2), blockedCounter (final r2))
    = (Returned None, eastward 0 5, 2)
  /\ (result r3, deliveryPath (final r3), blockedTargetTile (final r3),
      blockedCounter (final r3))
    = (Returned None, [], None, 0).
Proof. repeat split. Qed.

(** Blocked on the recorded tile turn after turn: as long as the count stays
    below the timeout the route is kept and the count grows by one per turn;
    the turn on which it reaches the timeout clears the route. *)
Lemma blocked_turns (currentX currentY : Z) (n : nat) :
  forall (s : DeliveryStrategy) (nextStep tile : Position.t)
         (rest : list Position.t),
    deliveryPath s = nextStep :: rest ->
    occupiedByOther s (Position.x nextStep) (Position.y nextStep) ->
    blockedTargetTile s = Some tile ->
    Position.x tile = Position.x nextStep ->
    Position.y tile = Position.y nextStep ->
    blockedCounter s + Z.of_nat n < BLOCKED_TIMEOUT s ->
    let s' := followTurns n currentX currentY s in
    beliefs s' = beliefs s
    /\ BLOCKED_TIMEOUT s' = BLOCKED_TIMEOUT s
    /\ deliveryPath s' = deliveryPath s
    /\ blockedTargetTile s' = blockedTargetTile s
    /\ blockedCounter s' = blockedCounter s + Z.of_nat n.
Proof.
  induction n as [|k IH]; intros s nextStep tile rest Hpath Hocc Htile Hx Hy Hlt.
  - cbn. auto with zarith.
  - cbn [followTurns].
    rewrite (followDeliveryPath_blocked_run currentX currentY s nextStep rest
               Hpath Hocc).
    rewrite Htile. cbn [isSameTile]. rewrite Hx, Hy, !Z.eqb_refl.
    cbn [andb final].
    destruct (Z.leb_spec (BLOCKED_TIMEOUT s) (blockedCounter s + 1)); [lia|].
    cbv zeta.
    destruct (IH (set_blockedCounter (blockedCounter s + 1) s) nextStep tile rest)
      as (Hb & Ht & Hp & Htl & Hc); auto.
    + cbn. lia.
    + cbn in *. rewrite Hb, Ht, Hp, Htl, Hc. repeat split; auto; lia.
Qed.

Lemma blocked_turns_timeout (currentX currentY : Z) (n : nat)
    (s : DeliveryStrategy) (nextStep tile : Position.t) (rest : list Position.t) :
  deliveryPath s = nextStep :: rest ->
  occupiedByOther s (Position.x nextStep) (Position.y nextStep) ->
  blockedTargetTile s = Some tile ->
  Position.x tile = Position.x nextStep ->
  Position.y tile = Position.y nextStep ->
  blockedCounter s + Z.of_nat n + 1 = BLOCKED_TIMEOUT s ->
  deliveryPath (followTurns n currentX currentY s) = deliveryPath s
  /\ deliveryPath (followTurns (S n) currentX currentY s) = [].
Proof.
  intros Hpath Hocc Htile Hx Hy Hreach.
  destruct (blocked_turns currentX currentY n s nextStep tile rest)
    as (Hb & Ht & Hp & Htl & Hc); auto; [lia|].
  split; [exact Hp|].
  revert Hb Ht Hp Htl Hc.
  assert (Hturn : forall m s0, followTurns (S m) currentX currentY s0
                   = final (followDeliveryPath currentX currentY
                              (followTurns m currentX currentY s0))).
  { induction m as [|m IHm]; intros s0; [reflexivity|].
    cbn [followTurns] in *. rewrite IHm. reflexivity. }
  rewrite Hturn. generalize (followTurns n currentX currentY s).
  intros s' Hb Ht Hp Htl Hc.
  rewrite (followDeliveryPath_blocked_run currentX currentY s' nextStep rest).
  - rewrite Htl, Htile. cbn [isSameTile]. rewrite Hx, Hy, !Z.eqb_refl.
    cbn [andb final]. rewrite Ht, Hc.
    destruct (Z.leb_spec (BLOCKED_TIMEOUT s) (blockedCounter s + Z.of_nat n + 1));
      [reflexivity | lia].
  - rewrite Hp. exact Hpath.
  - destruct Hocc as (Hme & others & agent & Hsome & Hin & Hid & Hxy).
    split; [rewrite Hb; exact Hme|].
    exists others, agent. rewrite Hb. split; [exact Hsome|].
    split; [exact Hin|]. unfold otherAgentAt. rewrite Hb. auto.
Qed.

(** C6, as the code runs.  [followDeliveryPath] on a non-empty path whose
    first step is seen as occupied by another agent (the agent knows its own
    id and the agents collection holds an agent with another id on that
    tile), when no tile is recorded or the recorded tile is a different one,
    records that step as [blockedTargetTile], sets [blockedCounter] to
    exactly 1 whatever it was before, keeps the path and returns no
    action. *)
Theorem followDeliveryPath_newly_blocked (currentX currentY : Z)
    (s : DeliveryStrategy) (nextStep : Position.t) (rest : list Position.t) :
  deliveryPath s = nextStep :: rest ->
  occupiedByOther s (Position.x nextStep) (Position.y nextStep) ->
  (forall tile, blockedTargetTile s = Some tile ->
                Position.x tile <> Position.x nextStep
                \/ Position.y tile <> Position.y nextStep) ->
  let r := followDeliveryPath currentX currentY s in
  result r = Returned None
  /\ blockedTargetTile (final r)
     = Some (Position.mk (Position.x nextStep) (Position.y nextStep))
  /\ blockedCounter (final r) = 1
  /\ deliveryPath (final r) = deliveryPath s.
Proof.
  intros Hpath Hocc Hnew. cbv zeta.
  rewrite (followDeliveryPath_blocked_run currentX currentY s nextStep rest
             Hpath Hocc).
  assert (Hsame : isSameTile (blockedTargetTile s)
                             (Position.x nextStep) (Position.y nextStep) = false).
  { destruct (blockedTargetTile s) as [tile|]; [|reflexivity].
    cbn [isSameTile]. apply andb_false_iff.
    destruct (Hnew tile eq_refl) as [H | H]; [left | right];
      apply Z.eqb_neq; exact H. }
  rewrite Hsame. cbn. auto.
Qed.

(** The recorded tile (3,0) with counter 2 is replaced by (1,0) with
    counter 1. *)
Lemma followDeliveryPath_newly_blocked_witness :
  let s := blockedWorld (Some (Position.mk 3 0)) 2 in
  let r := followDeliveryPath 0 0 s in
  result r = Returned None
  /\ blockedTargetTile (final r) = Some (Position.mk 1 0)
  /\ blockedCounter (final r) = 1
  /\ deliveryPath (final r) = deliveryPath s.
Proof.
  apply (followDeliveryPath_newly_blocked 0 0
           (blockedWorld (Some (Position.mk 3 0)) 2)
           (Position.mk 1 0) (eastward 1 4)).
  - reflexivity.
  - apply blockedWorld_occupied.
  - intros tile H. injection H as <-. left. simpl. lia.
Defined.

(** The run of [followDeliveryPath] when the first step is not blocked: the
    block state is reset, the router is asked once, and its answer decides
    between popping the step and clearing the path. *)
Lemma followDeliveryPath_unblocked_run (currentX currentY : Z)
    (s : DeliveryStrategy) (nextStep : Position.t) (rest : list Position.t) :
  deliveryPath s = nextStep :: rest ->
  ~ occupiedByOther s (Position.x nextStep) (Position.y nextStep) ->
  followDeliveryPath currentX currentY s =
  let action := getActionToNextStep (pathfinder s) currentX currentY
                  (Position.x nextStep) (Position.y nextStep) in
  let unblocked := set_blockedCounter 0 (set_blockedTargetTile None s) in
  mkRun (Returned (if truthy action then Some (Move (moveName action)) else None))
        (if truthy action then set_deliveryPath rest unblocked
         else set_blockedCounter 0
                (set_blockedTargetTile None (set_deliveryPath [] unblocked)))
        [CallGetActionToNextStep currentX currentY
           (Position.x nextStep) (Position.y nextStep)].
Proof.
  intros Hpath Hfree. cbv zeta.
  unfold followDeliveryPath. step. rewrite Hpath.
  rewrite (bind_run _ _ _ _ (isBlocked_false _ _ _ Hfree)).
  unfold resetBlockState. step.
  cbn [pathfinder set_blockedCounter set_blockedTargetTile].
  destruct (truthy (getActionToNextStep _ _ _ _ _)); step; cbn [ret deliveryPath set_blockedCounter
                                  set_blockedTargetTile];
    [rewrite Hpath|]; reflexivity.
Qed.

(** C8.  [followDeliveryPath] on a non-empty path whose first step is not
    blocked asks the router for the move onto that step.  If the router gives
    none, [deliveryPath] is cleared, the block state is reset to (null, 0)
    and no action is returned.  If it gives a move, exactly the first step is
    removed from [deliveryPath] and that move is returned. *)
Theorem followDeliveryPath_free (currentX currentY : Z)
    (s : DeliveryStrategy) (nextStep : Position.t) (rest : list Position.t) :
  deliveryPath s = nextStep :: rest ->
  ~ occupiedByOther s (Position.x nextStep) (Position.y nextStep) ->
  let r := followDeliveryPath currentX currentY s in
  let action := getActionToNextStep (pathfinder s) currentX currentY
                  (Position.x nextStep) (Position.y nextStep) in
  calls r = [CallGetActionToNextStep currentX currentY
               (Position.x nextStep) (Position.y nextStep)]
  /\ blockStateReset (final r)
  /\ (truthy action = false ->
      result r = Returned None /\ deliveryPath (final r) = [])
  /\ (forall name, action = Some name -> name <> EmptyString ->
      result r = Returned (Some (Move name)) /\ deliveryPath (final r) = rest).
Proof.
  intros Hpath Hfree. cbv zeta.
  rewrite (followDeliveryPath_unblocked_run currentX currentY s nextStep rest
             Hpath Hfree). cbv zeta.
  cbn [calls final result]. split; [reflexivity|]. split.
  - destruct (truthy (getActionToNextStep _ _ _ _ _)); split; reflexivity.
  - split.
    + intros Hnone. rewrite Hnone. split; reflexivity.
    + intros name Hname Hne. rewrite Hname. cbn [truthy moveName].
      destruct (String.eqb_spec name EmptyString) as [Heq | _];
        [contradiction|].
      split; reflexivity.
Qed.

(** A free first step with a router that answers, and with one that does
    not. *)
Lemma followDeliveryPath_free_witness :
  (let s := freeWorld corridor in
   let r := followDeliveryPath 0 0 s in
   let action := getActionToNextStep (pathfinder s) 0 0 1 0 in
   calls r = [CallGetActionToNextStep 0 0 1 0]
   /\ blockStateReset (final r)
   /\ (truthy action = false ->
       result r = Returned None /\ deliveryPath (final r) = [])
   /\ (forall name, action = Some name -> name <> EmptyString ->
       result r = Returned (Some (Move name))
       /\ deliveryPath (final r) = eastward 1 4))
  /\ (let s := freeWorld lostRouter in
      let r := followDeliveryPath 0 0 s in
      let action := getActionToNextStep (pathfinder s) 0 0 1 0 in
      calls r = [CallGetActionToNextStep 0 0 1 0]
      /\ blockStateReset (final r)
      /\ (truthy action = false ->
          result r = Returned None /\ deliveryPath (final r) = [])
      /\ (forall name, action = Some name -> name <> EmptyString ->
          result r = Returned (Some (Move name))
          /\ deliveryPath (final r) = eastward 1 4)).
Proof.
  split.
  - apply (followDeliveryPath_free 0 0 (freeWorld corridor)
             (Position.mk 1 0) (eastward 1 4)).
    + reflexivity.
    + intros (_ & others & agent & Hsome & Hin & _).
      injection Hsome as <-. simpl in Hin. exact Hin.
  - apply (followDeliveryPath_free 0 0 (freeWorld lostRouter)
             (Position.mk 1 0) (eastward 1 4)).
    + reflexivity.
    + intros (_ & others & agent & Hsome & Hin & _).
      injection Hsome as <-. simpl in Hin. exact Hin.
Defined.

(** C10.  When the agent's own id is unknown (null or empty) or the beliefs
    hold no agents collection, [isBlockedByOtherAgent] answers false for
    every tile.  [followDeliveryPath] on a non-empty path then never takes
    the blocking branch, wherever the other agents stand: the block state
    ends as (null, 0), so the counter is not incremented, and the router is
    asked for the move onto the next path tile, which is returned when there
    is one. *)
Theorem unknown_id_never_blocked (s : DeliveryStrategy) :
  truthy (myId (beliefs s)) = false \/ agents (beliefs s) = None ->
  (forall x y, isBlockedByOtherAgent x y s = mkRun (Returned false) s [])
  /\ forall currentX currentY nextStep rest,
       deliveryPath s = nextStep :: rest ->
       let r := followDeliveryPath currentX currentY s in
       let action := getActionToNextStep (pathfinder s) currentX currentY
                       (Position.x nextStep) (Position.y nextStep) in
       calls r = [CallGetActionToNextStep currentX currentY
                    (Position.x nextStep) (Position.y nextStep)]
       /\ blockedTargetTile (final r) = None
       /\ blockedCounter (final r) = 0
       /\ (forall name, action = Some name -> name <> EmptyString ->
           result r = Returned (Some (Move name))
           /\ deliveryPath (final r) = rest).
Proof.
  intros Hunknown.
  assert (Hfree : forall x y, ~ occupiedByOther s x y).
  { intros x y (Hme & others & agent & Hsome & _).
    destruct Hunknown as [H | H]; congruence. }
  split.
  - intros x y. apply isBlocked_false, Hfree.
  - intros currentX currentY nextStep rest Hpath. cbv zeta.
    rewrite (followDeliveryPath_unblocked_run currentX currentY s nextStep rest
               Hpath (Hfree _ _)). cbv zeta.
    cbn [calls final result]. split; [reflexivity|].
    split; [destruct (truthy (getActionToNextStep _ _ _ _ _)); reflexivity|].
    split; [destruct (truthy (getActionToNextStep _ _ _ _ _)); reflexivity|].
    intros name Hname Hne. rewrite Hname. cbn [truthy moveName].
    destruct (String.eqb_spec name EmptyString) as [Heq | _];
      [contradiction|].
    split; reflexivity.
Qed.

(** Another agent stands on (1,0), the next path tile, but the agent does not
    know its own id: it moves right all the same. *)
Lemma unknown_id_never_blocked_witness :
  (forall x y, isBlockedByOtherAgent x y anonymousWorld
               = mkRun (Returned false) anonymousWorld [])
  /\ result (followDeliveryPath 0 0 anonymousWorld)
     = Returned (Some (Move "right"))
  /\ blockedCounter (final (followDeliveryPath 0 0 anonymousWorld)) = 0.
Proof.
  destruct (unknown_id_never_blocked anonymousWorld) as [Hnever Hfollow].
  - left. reflexivity.
  - split; [exact Hnever|].
    destruct (Hfollow 0 0 (Position.mk 1 0) (eastward 1 4) eq_refl)
      as (_ & _ & Hcounter & Hmove).
    split; [|exact Hcounter].
    apply (Hmove "right"%string); [reflexivity | discriminate].
Defined.

(** *** The two blocking claims with an unknown id *)

Lemma anonymous_agent_on_next_step (s : DeliveryStrategy) :
  beliefs s = beliefs anonymousWorld -> agentStandsOn s 1 0.
Proof.
  intros Hb. unfold agentStandsOn, otherAgentAt. rewrite Hb.
  exists [Agent.mk "other" (1 # 1) (0 # 1)], (Agent.mk "other" (1 # 1) (0 # 1)).
  split; [reflexivity|]. split; [left; reflexivity|].
  split; [discriminate|]. split; reflexivity.
Qed.

(** C2, as stated, fails when the agent does not know its own id: an agent
    stands on (1,0), the first step of the route and the tile recorded as
    blocked once, with a timeout of 3; the call returns a move, consumes the
    step and resets the count instead of returning no action and counting
    to 2. *)
Lemma countsBlockedTurn_fails : ~ countsBlockedTurn 0 0 anonymousRecorded.
Proof.
  intros H.
  destruct (H (Position.mk 1 0) (eastward 1 4) (Position.mk 1 0)) as [Hres _].
  - reflexivity.
  - apply anonymous_agent_on_next_step. reflexivity.
  - reflexivity.
  - reflexivity.
  - reflexivity.
  - vm_compute in Hres. discriminate Hres.
Qed.

(** C6, as stated, fails when the agent does not know its own id: an agent
    stands on (1,0), the first step of the route, and no tile is recorded;
    the call returns a move and leaves the block state at (null, 0) instead
    of recording the tile with a count of 1. *)
Lemma recordsNewBlock_fails : ~ recordsNewBlock 0 0 anonymousWorld.
Proof.
  intros H.
  destruct (H (Position.mk 1 0) (eastward 1 4)) as [Hres _].
  - reflexivity.
  - apply anonymous_agent_on_next_step. reflexivity.
  - intros tile Htile. discriminate Htile.
  - vm_compute in Hres. discriminate Hres.
Qed.

(** ** Choosing the action *)

Lemma shouldDeliver_run (s : DeliveryStrategy) :
  shouldDeliver s = mkRun (Returned (0 <? len (carriedParcels s))) s [].
Proof. reflexivity. Qed.

Lemma carrying_true (s : DeliveryStrategy) :
  carriedParcels s <> [] -> (0 <? len (carriedParcels s)) = true.
Proof.
  intros H. apply Z.ltb_lt. unfold len.
  destruct (carriedParcels s); [contradiction | cbn [length]; lia].
Qed.

(** C5.  With a carried parcel, a known position and that position a delivery
    tile, [getDeliveryAction] returns [Putdown] and clears [deliveryPath].  No
    detour is evaluated and the router is not consulted; every other field,
    the block state included, is left as it was. *)
Theorem getDeliveryAction_putdown (s : DeliveryStrategy) (pos : Position.t) :
  carriedParcels s <> [] ->
  myPosition (beliefs s) = Some pos ->
  isDeliveryTile (beliefs s) (Position.x pos) (Position.y pos) = true ->
  let r := getDeliveryAction s in
  result r = Returned (Some Putdown)
  /\ deliveryPath (final r) = []
  /\ final r = set_deliveryPath [] s
  /\ calls r = [].
Proof.
  intros Hcarry Hpos Htile. cbv zeta.
  unfold getDeliveryAction.
  rewrite (bind_run _ _ _ _ (shouldDeliver_run s)), (carrying_true s Hcarry).
  cbn [negb]. step. rewrite Hpos, Htile. step. cbn. auto.
Qed.

(** On the delivery tile with a stale route and a recorded block. *)
Lemma getDeliveryAction_putdown_witness :
  let r := getDeliveryAction staleBlockOnDelivery in
  result r = Returned (Some Putdown)
  /\ deliveryPath (final r) = []
  /\ final r = set_deliveryPath [] staleBlockOnDelivery
  /\ calls r = [].
Proof.
  apply (getDeliveryAction_putdown staleBlockOnDelivery (Position.mk 5 0)).
  - discriminate.
  - reflexivity.
  - reflexivity.
Defined.

(** C3, as the code runs.  Both places of [getDeliveryAction] that clear the
    route on their own leave the block state untouched: after [Putdown] on the
    delivery tile, and after finding no delivery tile, [deliveryPath] is
    empty while [blockedTargetTile] and [blockedCounter] still hold the tile
    (4,0) and the count 2 recorded before. *)
Theorem getDeliveryAction_clears_path_keeps_block_state :
  (let r := getDeliveryAction staleBlockOnDelivery in
   result r = Returned (Some Putdown)
   /\ deliveryPath (final r) = []
   /\ blockedTargetTile (final r) = Some (Position.mk 4 0)
   /\ blockedCounter (final r) = 2)
  /\ (let r := getDeliveryAction staleBlockNoDelivery in
      result r = Returned None
      /\ deliveryPath (final r) = []
      /\ blockedTargetTile (final r) = Some (Position.mk 4 0)
      /\ blockedCounter (final r) = 2).
Proof. repeat split. Qed.

Lemma isPathLeadingTo_iff (path : list Position.t) (targetX targetY : Z) :
  isPathLeadingTo path targetX targetY = true <-> pathLeadsTo path targetX targetY.
Proof.
  unfold isPathLeadingTo, pathLeadsTo, len.
  induction path as [|step0 front _] using rev_ind.
  - cbn. split; [discriminate|].
    intros (front & finalStep & H & _). destruct front; discriminate.
  - rewrite length_app. cbn [length].
    replace (Z.of_nat (length front + 1) =? 0) with false
      by (symmetry; apply Z.eqb_neq; lia).
    replace (length front + 1 - 1)%nat with (length front) by lia.
    rewrite nth_error_app2, Nat.sub_diag by lia. cbn [nth_error].
    rewrite andb_true_iff, !Z.eqb_eq. split.
    + intros [Hx Hy]. exists front, step0. auto.
    + intros (front' & finalStep & H & Hx & Hy).
      apply app_inj_tail in H. destruct H as [_ ->]. auto.
Qed.

Lemma needsNewPath_false_iff (path : list Position.t) (targetX targetY : Z) :
  needsNewPath path targetX targetY = false <-> pathLeadsTo path targetX targetY.
Proof.
  unfold needsNewPath. rewrite orb_false_iff, negb_false_iff.
  rewrite isPathLeadingTo_iff. split; [intros [_ H]; exact H|].
  intros H. split; [|exact H].
  destruct H as (front & finalStep & -> & _).
  apply Z.eqb_neq. unfold len. rewrite length_app. cbn [length]. lia.
Qed.

(** A method that leaves the fields alone and returns, followed by more. *)
Lemma bind_run_calls {A B} (m : M A) (k : A -> M B) (s : DeliveryStrategy)
    (a : A) :
  result (m s) = Returned a -> final (m s) = s ->
  bind m k s = mkRun (result (k a s)) (final (k a s)) (calls (m s) ++ calls (k a s)).
Proof. intros Hres Hfin. unfold bind. rewrite Hres, Hfin. reflexivity. Qed.

(** Following a path never asks the router for a route. *)
Lemma followDeliveryPath_no_findPath (currentX currentY : Z) (s : DeliveryStrategy)
    (x1 y1 x2 y2 : Z) :
  ~ In (CallFindPath x1 y1 x2 y2) (calls (followDeliveryPath currentX currentY s)).
Proof.
  unfold followDeliveryPath. step.
  destruct (deliveryPath s) as [|nextStep rest] eqn:Hpath.
  - unfold resetBlockState. step. cbn. tauto.
  - destruct (isBlockedByOtherAgent_run (Position.x nextStep) (Position.y nextStep) s)
      as (blocked & Hrun & _).
    rewrite (bind_run _ _ _ _ Hrun). destruct blocked.
    + step. destruct (isSameTile _ _ _).
      * step. destruct (_ <=? _); unfold resetBlockState; step; cbn; tauto.
      * step. cbn. tauto.
    + unfold resetBlockState. step.
      destruct (truthy _); step; cbn; intros [H | []]; discriminate.
Qed.

(** C7.  When [getDeliveryAction] routes toward a target (the detour parcel,
    or else the nearest delivery tile), it asks the router for a route exactly
    when [deliveryPath] does not lead to the target, that is when it is empty
    or its last element has other coordinates.  If the path leads to the
    target, the call is [followDeliveryPath] on the unchanged fields and,
    after detour evaluation, no route is computed.  If it does not, one
    [findPath] from the current position to the target is made after detour
    evaluation, its result becomes [deliveryPath], and that path is
    followed. *)
Theorem getDeliveryAction_lazy_route (s : DeliveryStrategy) (cur : Position.t)
    (targetX targetY : Z) :
  carriedParcels s <> [] ->
  myPosition (beliefs s) = Some cur ->
  isDeliveryTile (beliefs s) (Position.x cur) (Position.y cur) = false ->
  currentTarget s cur = Some (targetX, targetY) ->
  let cx := Position.x cur in
  let cy := Position.y cur in
  let recomputed :=
    set_deliveryPath (findPath (pathfinder s) cx cy targetX targetY) s in
  let r := getDeliveryAction s in
  (pathLeadsTo (deliveryPath s) targetX targetY ->
   result r = result (followDeliveryPath cx cy s)
   /\ final r = final (followDeliveryPath cx cy s)
   /\ calls r = calls (evaluateDetourParcels s)
                ++ calls (followDeliveryPath cx cy s))
  /\ (~ pathLeadsTo (deliveryPath s) targetX targetY ->
      result r = result (followDeliveryPath cx cy recomputed)
      /\ final r = final (followDeliveryPath cx cy recomputed)
      /\ calls r = calls (evaluateDetourParcels s)
                   ++ CallFindPath cx cy targetX targetY
                   :: calls (followDeliveryPath cx cy recomputed))
  /\ (forall s' x1 y1 x2 y2,
        ~ In (CallFindPath x1 y1 x2 y2) (calls (followDeliveryPath cx cy s'))).
Proof.
  intros Hcarry Hpos Htile Htarget. cbv zeta.
  split; [|split]; [| |intros; apply followDeliveryPath_no_findPath].
  all: intros Hleads.
  all: unfold getDeliveryAction.
  all: rewrite (bind_run _ _ _ _ (shouldDeliver_run s)), (carrying_true s Hcarry).
  all: cbn [negb]; step; rewrite Hpos, Htile.
  all: unfold currentTarget in Htarget.
  all: pose proof (evaluateDetourParcels_final s) as Hfinal.
  all: destruct (result (evaluateDetourParcels s)) as [[detour|]|e] eqn:Hres;
    [| |discriminate].
  all: rewrite (bind_run_calls _ _ s _ Hres Hfinal).
  all: cbn [result final calls].
  - destruct (isAtPosition _ _ _ _); [discriminate|].
    injection Htarget as <- <-. step.
    rewrite (proj2 (needsNewPath_false_iff _ _ _) Hleads). step. auto.
  - destruct (getClosestDeliveryTile _ _ _) as [tile|]; [|discriminate].
    injection Htarget as <- <-. step.
    rewrite (proj2 (needsNewPath_false_iff _ _ _) Hleads). step. auto.
  - destruct (isAtPosition _ _ _ _); [discriminate|].
    injection Htarget as <- <-. step.
    destruct (needsNewPath _ _ _) eqn:Hneeds;
      [|apply needsNewPath_false_iff in Hneeds; contradiction].
    step. auto.
  - destruct (getClosestDeliveryTile _ _ _) as [tile|]; [|discriminate].
    injection Htarget as <- <-. step.
    destruct (needsNewPath _ _ _) eqn:Hneeds;
      [|apply needsNewPath_false_iff in Hneeds; contradiction].
    step. auto.
Qed.

(** No detour is on offer and the committed route already ends on the
    delivery tile (5,0): it is followed as it is. *)
Lemma getDeliveryAction_lazy_route_witness :
  let s := freeWorld corridor in
  let r := getDeliveryAction s in
  pathLeadsTo (deliveryPath s) 5 0
  /\ result r = result (followDeliveryPath 0 0 s)
  /\ final r = final (followDeliveryPath 0 0 s)
  /\ calls r = calls (evaluateDetourParcels s) ++ calls (followDeliveryPath 0 0 s).
Proof.
  assert (Hleads : pathLeadsTo (deliveryPath (freeWorld corridor)) 5 0).
  { exists (eastward 0 4), (Position.mk 5 0). repeat split. }
  split; [exact Hleads|].
  apply (getDeliveryAction_lazy_route (freeWorld corridor) (Position.mk 0 0) 5 0).
  - discriminate.
  - reflexivity.
  - reflexivity.
  - reflexivity.
  - exact Hleads.
Defined.

(** The detour scenario of the specification: the first action is the move
    toward the parcel at (1,0), on a route computed to it after the detour
    evaluation. *)
Example detour_first_action :
  let r := getDeliveryAction detourWorld in
  result r = Returned (Some (Move "right"))
  /\ calls r = [CallFindPath 0 0 5 0; CallFindPath 0 0 1 0; CallFindPath 1 0 5 0;
                CallFindPath 0 0 1 0; CallGetActionToNextStep 0 0 1 0].
Proof. split; reflexivity. Qed.

(** ** Updating the carried parcels *)

(** C4, as the code runs.  [updateCarriedParcels allParcels] returns without
    consulting the router.  When the agent's id is known, the carried parcels
    become exactly the parcels of [allParcels] whose [carriedBy] is that id;
    if there is none while a route is committed, the route is cleared and the
    block state reset to (null, 0) in the same call, and otherwise route and
    block state stay.  When the id is null, the carried parcels become empty
    and route and block state are left as they were. *)
Theorem updateCarriedParcels_effect (s : DeliveryStrategy)
    (allParcels : list Parcel.t) :
  let r := updateCarriedParcels allParcels s in
  result r = Returned tt
  /\ calls r = []
  /\ match myId (beliefs s) with
     | Some me =>
         carriedParcels (final r)
         = filter (fun p => strictEq (Parcel.carriedBy p) (Some me)) allParcels
         /\ (forall p, In p (carriedParcels (final r))
                       <-> In p allParcels /\ Parcel.carriedBy p = Some me)
         /\ (carriedParcels (final r) = [] -> deliveryPath s <> [] ->
             deliveryPath (final r) = [] /\ blockStateReset (final r))
         /\ (carriedParcels (final r) <> [] \/ deliveryPath s = [] ->
             deliveryPath (final r) = deliveryPath s
             /\ blockedTargetTile (final r) = blockedTargetTile s
             /\ blockedCounter (final r) = blockedCounter s)
     | None =>
         carriedParcels (final r) = []
         /\ deliveryPath (final r) = deliveryPath s
         /\ blockedTargetTile (final r) = blockedTargetTile s
         /\ blockedCounter (final r) = blockedCounter s
     end.
Proof.
  cbv zeta. unfold updateCarriedParcels. step.
  destruct (myId (beliefs s)) as [me|] eqn:Hme; [|cbn; auto 10].
  step. cbn [set_carriedParcels carriedParcels deliveryPath].
  set (mine := filter _ allParcels).
  assert (Hin : forall p, In p mine <-> In p allParcels /\ Parcel.carriedBy p = Some me).
  { intros p. unfold mine. rewrite filter_In, strictEq_true_iff. reflexivity. }
  unfold len.
  destruct mine as [|p0 more] eqn:Hmine;
    destruct (deliveryPath s) as [|step0 rest] eqn:Hpath;
    cbn [length andb]; unfold resetBlockState; step; cbn; unfold blockStateReset;
    rewrite ?Hpath; cbn.
  all: split; [reflexivity|]; split; [reflexivity|]; split; [reflexivity|].
  all: split; [exact Hin|].
  all: split; [intros; try congruence; auto|].
  all: try (intros [H | H]; congruence).
  all: auto.
Qed.

(** C4, as stated, fails when the id is null: the carried parcels go from one
    to none, yet the committed route stays. *)
Lemma clearsOnLastDelivery_fails :
  ~ clearsOnLastDelivery anonymousWorld [carriedOne].
Proof.
  intros [_ H].
  destruct H as [Hpath _]; [discriminate | reflexivity | discriminate |].
  discriminate Hpath.
Qed.

(** ** The strategy as a whole *)

(** *** Case analyses of the two stateful methods *)

Lemma followDeliveryPath_empty_run (currentX currentY : Z) (s : DeliveryStrategy) :
  deliveryPath s = [] ->
  followDeliveryPath currentX currentY s
  = mkRun (Returned None)
          (set_blockedCounter 0 (set_blockedTargetTile None s)) [].
Proof.
  intros Hpath. unfold followDeliveryPath. step. rewrite Hpath.
  unfold resetBlockState. step. reflexivity.
Qed.

(** Every call of [followDeliveryPath] is one of three runs. *)
Lemma followDeliveryPath_cases (currentX currentY : Z) (s : DeliveryStrategy) :
  (deliveryPath s = []
   /\ followDeliveryPath currentX currentY s
      = mkRun (Returned None)
              (set_blockedCounter 0 (set_blockedTargetTile None s)) [])
  \/ (exists nextStep rest,
        deliveryPath s = nextStep :: rest
        /\ occupiedByOther s (Position.x nextStep) (Position.y nextStep)
        /\ followDeliveryPath currentX currentY s
           = mkRun (Returned None)
               (if isSameTile (blockedTargetTile s)
                              (Position.x nextStep) (Position.y nextStep)
                then
                  let counted := set_blockedCounter (blockedCounter s + 1) s in
                  if BLOCKED_TIMEOUT s <=? blockedCounter s + 1
                  then set_blockedCounter 0
                         (set_blockedTargetTile None (set_deliveryPath [] counted))
                  else counted
                else
                  set_blockedCounter 1
                    (set_blockedTargetTile
                       (Some (Position.mk (Position.x nextStep)
                                          (Position.y nextStep)))
                       s))
               [])
  \/ (exists nextStep rest,
        deliveryPath s = nextStep :: rest
        /\ ~ occupiedByOther s (Position.x nextStep) (Position.y nextStep)
        /\ followDeliveryPath currentX currentY s
           = let action := getActionToNextStep (pathfinder s) currentX currentY
                             (Position.x nextStep) (Position.y nextStep) in
             let unblocked := set_blockedCounter 0 (set_blockedTargetTile None s) in
             mkRun (Returned (if truthy action then Some (Move (moveName action))
                              else None))
                   (if truthy action then set_deliveryPath rest unblocked
                    else set_blockedCounter 0
                           (set_blockedTargetTile None
                              (set_deliveryPath [] unblocked)))
                   [CallGetActionToNextStep currentX currentY
                      (Position.x nextStep) (Position.y nextStep)]).
Proof.
  destruct (deliveryPath s) as [|nextStep rest] eqn:Hpath.
  - left. split; [reflexivity|]. apply followDeliveryPath_empty_run, Hpath.
  - right.
    destruct (isBlockedByOtherAgent_run (Position.x nextStep) (Position.y nextStep) s)
      as (blocked & _ & Hiff).
    destruct blocked.
    + left. exists nextStep, rest. split; [reflexivity|].
      assert (Hocc : occupiedByOther s (Position.x nextStep) (Position.y nextStep))
        by (apply Hiff; reflexivity).
      split; [exact Hocc|].
      apply (followDeliveryPath_blocked_run currentX currentY s nextStep rest
               Hpath Hocc).
    + right. exists nextStep, rest. split; [reflexivity|].
      assert (Hfree : ~ occupiedByOther s (Position.x nextStep) (Position.y nextStep)).
      { intros H. apply Hiff in H. discriminate. }
      split; [exact Hfree|].
      apply (followDeliveryPath_unblocked_run currentX currentY s nextStep rest
               Hpath Hfree).
Qed.

(** [getDeliveryAction], branch by branch. *)
Lemma getDeliveryAction_run (s : DeliveryStrategy) :
  getDeliveryAction s =
  match carriedParcels s, myPosition (beliefs s) with
  | [], _ => mkRun (Returned None) s []
  | _ :: _, None => mkRun (Returned None) s []
  | _ :: _, Some cur =>
      let cx := Position.x cur in
      let cy := Position.y cur in
      let evaluated := evaluateDetourParcels s in
      if isDeliveryTile (beliefs s) cx cy
      then mkRun (Returned (Some Putdown)) (set_deliveryPath [] s) []
      else
        match result evaluated with
        | Returned (Some detour) =>
            if isAtPosition (Parcel.x detour) (Parcel.y detour) cx cy
            then mkRun (Returned (Some (Pickup (Parcel.id detour)))) s
                       (calls evaluated)
            else routeThenFollow s cx cy (Parcel.x detour) (Parcel.y detour)
                                 (calls evaluated)
        | Returned None =>
            match getClosestDeliveryTile (beliefs s) cx cy with
            | None => mkRun (Returned None) (set_deliveryPath [] s)
                            (calls evaluated)
            | Some tile =>
                routeThenFollow s cx cy (Position.x tile) (Position.y tile)
                                (calls evaluated)
            end
        | Threw e => mkRun (Threw e) s (calls evaluated)
        end
  end.
Proof.
  unfold getDeliveryAction.
  rewrite (bind_run _ _ _ _ (shouldDeliver_run s)).
  destruct (carriedParcels s) as [|p0 more] eqn:Hcarry; [reflexivity|].
  replace (0 <? len (p0 :: more)) with true
    by (symmetry; apply Z.ltb_lt; unfold len; cbn [length]; lia).
  cbn [negb]. step.
  destruct (myPosition (beliefs s)) as [cur|]; [|reflexivity].
  cbv zeta. destruct (isDeliveryTile _ _ _); [step; reflexivity|].
  pose proof (evaluateDetourParcels_final s) as Hfinal.
  destruct (result (evaluateDetourParcels s)) as [[detour|]|e] eqn:Hres.
  - rewrite (bind_run_calls _ _ s _ Hres Hfinal).
    destruct (isAtPosition _ _ _ _).
    + cbn [ret result final calls]. rewrite app_nil_r. reflexivity.
    + unfold routeThenFollow. step.
      destruct (needsNewPath _ _ _); step; reflexivity.
  - rewrite (bind_run_calls _ _ s _ Hres Hfinal).
    destruct (getClosestDeliveryTile _ _ _) as [tile|].
    + unfold routeThenFollow. step.
      destruct (needsNewPath _ _ _); step; reflexivity.
    + step. cbn [ret result final calls]. rewrite app_nil_r. reflexivity.
  - unfold bind. rewrite Hres, Hfinal. reflexivity.
Qed.

Lemma truthy_moveName (action : option string) :
  truthy action = true ->
  action = Some (moveName action) /\ moveName action <> EmptyString.
Proof.
  destruct action as [name|]; cbn; [|discriminate].
  destruct (String.eqb_spec name EmptyString); cbn; [discriminate|]. auto.
Qed.

(** What a call of [followDeliveryPath] that hands back an action has done. *)
Lemma followDeliveryPath_action (currentX currentY : Z) (s : DeliveryStrategy)
    (a : Action) :
  result (followDeliveryPath currentX currentY s) = Returned (Some a) ->
  exists name nextStep rest,
    a = Move name
    /\ name <> EmptyString
    /\ deliveryPath s = nextStep :: rest
    /\ ~ occupiedByOther s (Position.x nextStep) (Position.y nextStep)
    /\ getActionToNextStep (pathfinder s) currentX currentY
         (Position.x nextStep) (Position.y nextStep) = Some name
    /\ final (followDeliveryPath currentX currentY s)
       = set_deliveryPath rest
           (set_blockedCounter 0 (set_blockedTargetTile None s)).
Proof.
  destruct (followDeliveryPath_cases currentX currentY s)
    as [[_ Hrun] | [(nextStep & rest & _ & _ & Hrun)
                   | (nextStep & rest & Hpath & Hfree & Hrun)]];
    rewrite Hrun; cbv zeta; cbn [result final]; try discriminate.
  destruct (truthy (getActionToNextStep _ _ _ _ _)) eqn:Etruthy; [|discriminate].
  intros H. injection H as <-.
  destruct (truthy_moveName _ Etruthy) as [Hsome Hne].
  exists (moveName (getActionToNextStep (pathfinder s) currentX currentY
                      (Position.x nextStep) (Position.y nextStep))),
         nextStep, rest.
  auto 10.
Qed.

Lemma followDeliveryPath_returned (currentX currentY : Z) (s : DeliveryStrategy) :
  exists a, result (followDeliveryPath currentX currentY s) = Returned a.
Proof.
  destruct (followDeliveryPath_cases currentX currentY s)
    as [[_ Hrun] | [(nextStep & rest & _ & _ & Hrun)
                   | (nextStep & rest & _ & _ & Hrun)]];
    rewrite Hrun; cbv zeta; cbn [result]; eauto.
Qed.

Lemma evaluateDetourParcels_threw (s : DeliveryStrategy) (e : string) :
  result (evaluateDetourParcels s) = Threw e -> myPosition (beliefs s) = None.
Proof.
  rewrite evaluateDetourParcels_run.
  destruct (myPosition (beliefs s)) as [cur|]; [|reflexivity].
  destruct (getClosestDeliveryTile _ _ _) as [tile|]; [|discriminate].
  cbv zeta. destruct (legReachable _ _ _ _ _); discriminate.
Qed.

Lemma notReportedBlocked_iff (s : DeliveryStrategy) (x y : Z) :
  notReportedBlocked s x y <-> ~ occupiedByOther s x y.
Proof.
  unfold notReportedBlocked, occupiedByOther. split.
  - intros [Hid | [Hnone | (others & Hsome & Hfree)]]
           (Hme & others' & agent & Hsome' & Hin & Hat).
    + congruence.
    + congruence.
    + rewrite Hsome in Hsome'. injection Hsome' as <-.
      exact (Hfree agent Hin Hat).
  - intros Hfree.
    destruct (truthy (myId (beliefs s))) eqn:Hme; [|left; reflexivity].
    destruct (agents (beliefs s)) as [others|] eqn:Hsome;
      [|right; left; reflexivity].
    right. right. exists others. split; [reflexivity|].
    intros agent Hin Hat. apply Hfree. split; [reflexivity|].
    exists others, agent. auto.
Qed.

(** *** What [getDeliveryAction] does and never does *)

(** X1.  [getDeliveryAction] and [followDeliveryPath] always return: the
    [TypeError] that [evaluateDetourParcels] raises on an unknown position
    cannot escape, because [getDeliveryAction] gives up before evaluating a
    detour when the position is unknown. *)
Theorem getDeliveryAction_never_throws (s : DeliveryStrategy) :
  (exists a, result (getDeliveryAction s) = Returned a)
  /\ forall currentX currentY,
       exists a, result (followDeliveryPath currentX currentY s) = Returned a.
Proof.
  split; [|intros; apply followDeliveryPath_returned].
  rewrite getDeliveryAction_run.
  destruct (carriedParcels s) as [|p0 more]; [cbn; eauto|].
  destruct (myPosition (beliefs s)) as [cur|] eqn:Hpos; [|cbn; eauto].
  cbv zeta. destruct (isDeliveryTile _ _ _); [cbn; eauto|].
  destruct (result (evaluateDetourParcels s)) as [[detour|]|e] eqn:Hres.
  - destruct (isAtPosition _ _ _ _); [cbn; eauto|].
    unfold routeThenFollow. cbn [result]. apply followDeliveryPath_returned.
  - destruct (getClosestDeliveryTile _ _ _); [|cbn; eauto].
    unfold routeThenFollow. cbn [result]. apply followDeliveryPath_returned.
  - apply evaluateDetourParcels_threw in Hres. congruence.
Qed.

(** X2.  With nothing carried, or with an unknown position,
    [getDeliveryAction] returns no action, changes no field (a committed
    route and a recorded block stay) and consults no router. *)
Theorem getDeliveryAction_idle (s : DeliveryStrategy) :
  carriedParcels s = [] \/ myPosition (beliefs s) = None ->
  getDeliveryAction s = mkRun (Returned None) s [].
Proof.
  intros Hidle. rewrite getDeliveryAction_run.
  destruct (carriedParcels s) as [|p0 more]; [reflexivity|].
  destruct Hidle as [H | H]; [discriminate|]. rewrite H. reflexivity.
Qed.

Lemma getDeliveryAction_idle_witness :
  getDeliveryAction emptyHanded = mkRun (Returned None) emptyHanded []
  /\ getDeliveryAction (set_deliveryPath (eastward 0 5) emptyHanded)
     = mkRun (Returned None) (set_deliveryPath (eastward 0 5) emptyHanded) [].
Proof.
  split.
  - apply (getDeliveryAction_idle emptyHanded). left. reflexivity.
  - apply (getDeliveryAction_idle (set_deliveryPath (eastward 0 5) emptyHanded)).
    left. reflexivity.
Defined.

(** X3.  When the detour parcel selected lies on the agent's own cell (and
    that cell is no delivery tile), [getDeliveryAction] returns [Pickup] with
    that parcel's id; no route is computed beyond the detour evaluation and
    no field changes, so a committed route is kept for after the pickup. *)
Theorem getDeliveryAction_pickup (s : DeliveryStrategy) (cur : Position.t)
    (detour : Parcel.t) :
  carriedParcels s <> [] ->
  myPosition (beliefs s) = Some cur ->
  isDeliveryTile (beliefs s) (Position.x cur) (Position.y cur) = false ->
  result (evaluateDetourParcels s) = Returned (Some detour) ->
  Parcel.x detour = Position.x cur ->
  Parcel.y detour = Position.y cur ->
  getDeliveryAction s
  = mkRun (Returned (Some (Pickup (Parcel.id detour)))) s
          (calls (evaluateDetourParcels s)).
Proof.
  intros Hcarry Hpos Htile Hres Hx Hy. rewrite getDeliveryAction_run.
  destruct (carriedParcels s) as [|p0 more]; [contradiction|].
  rewrite Hpos. cbv zeta. rewrite Htile, Hres.
  unfold isAtPosition. rewrite Hx, Hy, !Z.eqb_refl. reflexivity.
Qed.

Lemma getDeliveryAction_pickup_witness :
  getDeliveryAction pickupWorld
  = mkRun (Returned (Some (Pickup "p2"))) pickupWorld
          [CallFindPath 0 0 5 0; CallFindPath 0 0 0 0; CallFindPath 0 0 5 0].
Proof.
  apply (getDeliveryAction_pickup pickupWorld (Position.mk 0 0) parcelHere).
  - discriminate.
  - reflexivity.
  - reflexivity.
  - reflexivity.
  - reflexivity.
  - reflexivity.
Defined.

(** X4.  When parcels are carried away from a delivery tile and the beliefs
    know no delivery tile at all, [getDeliveryAction] returns no action and
    empties [deliveryPath]; nothing else changes and the router is never
    consulted, not even for a detour. *)
Theorem getDeliveryAction_no_delivery_tile (s : DeliveryStrategy)
    (cur : Position.t) :
  carriedParcels s <> [] ->
  myPosition (beliefs s) = Some cur ->
  isDeliveryTile (beliefs s) (Position.x cur) (Position.y cur) = false ->
  getClosestDeliveryTile (beliefs s) (Position.x cur) (Position.y cur) = None ->
  getDeliveryAction s = mkRun (Returned None) (set_deliveryPath [] s) [].
Proof.
  intros Hcarry Hpos Htile Hnone. rewrite getDeliveryAction_run.
  destruct (carriedParcels s) as [|p0 more]; [contradiction|].
  rewrite Hpos. cbv zeta. rewrite Htile, Hnone.
  rewrite evaluateDetourParcels_run, Hpos, Hnone. reflexivity.
Qed.

Lemma getDeliveryAction_no_delivery_tile_witness :
  getDeliveryAction staleBlockNoDelivery
  = mkRun (Returned None) (set_deliveryPath [] staleBlockNoDelivery) [].
Proof.
  apply (getDeliveryAction_no_delivery_tile staleBlockNoDelivery (Position.mk 3 0)).
  - discriminate.
  - reflexivity.
  - reflexivity.
  - reflexivity.
Defined.

Lemma followDeliveryPath_setup (currentX currentY : Z) (s : DeliveryStrategy) :
  sameSetup s (final (followDeliveryPath currentX currentY s))
  /\ carriedParcels (final (followDeliveryPath currentX currentY s))
     = carriedParcels s.
Proof.
  unfold sameSetup.
  destruct (followDeliveryPath_cases currentX currentY s)
    as [[_ Hrun] | [(nextStep & rest & _ & _ & Hrun)
                   | (nextStep & rest & _ & _ & Hrun)]];
    rewrite Hrun; cbv zeta; cbn [final].
  - cbn. auto 10.
  - destruct (isSameTile _ _ _); [destruct (_ <=? _)|]; cbn; auto 10.
  - destruct (truthy (getActionToNextStep _ _ _ _ _)); cbn; auto 10.
Qed.

Lemma routeThenFollow_setup (s : DeliveryStrategy) (cx cy tx ty : Z)
    (before : list PfCall) :
  sameSetup s (final (routeThenFollow s cx cy tx ty before))
  /\ carriedParcels (final (routeThenFollow s cx cy tx ty before))
     = carriedParcels s.
Proof.
  unfold routeThenFollow. cbn [final]. destruct (needsNewPath _ _ _).
  - exact (followDeliveryPath_setup cx cy
             (set_deliveryPath (findPath (pathfinder s) cx cy tx ty) s)).
  - apply followDeliveryPath_setup.
Qed.

(** X5.  The strategy only ever writes its own working fields.
    [followDeliveryPath] and [getDeliveryAction] leave the beliefs, the
    pathfinder, the three configuration values and [carriedParcels] as they
    were; [updateCarriedParcels] leaves the beliefs, the pathfinder and the
    configuration as they were. *)
Theorem strategy_frame (s : DeliveryStrategy) :
  (forall currentX currentY,
     sameSetup s (final (followDeliveryPath currentX currentY s))
     /\ carriedParcels (final (followDeliveryPath currentX currentY s))
        = carriedParcels s)
  /\ (sameSetup s (final (getDeliveryAction s))
      /\ carriedParcels (final (getDeliveryAction s)) = carriedParcels s)
  /\ (forall allParcels, sameSetup s (final (updateCarriedParcels allParcels s))).
Proof.
  split; [intros; apply followDeliveryPath_setup|]. split.
  - rewrite getDeliveryAction_run.
    pose proof (routeThenFollow_setup s) as Hroute.
    assert (Hsame : sameSetup s s) by (unfold sameSetup; auto 10).
    assert (Hcleared : sameSetup s (set_deliveryPath [] s))
      by (unfold sameSetup; cbn; auto 10).
    destruct (carriedParcels s) as [|p0 more] eqn:Hcarry;
      [cbn [final]; auto|].
    destruct (myPosition (beliefs s)) as [cur|]; [|cbn [final]; auto].
    cbv zeta. destruct (isDeliveryTile _ _ _); [cbn [final]; auto|].
    destruct (result (evaluateDetourParcels s)) as [[detour|]|e].
    + destruct (isAtPosition _ _ _ _); [cbn [final]; auto | apply Hroute].
    + destruct (getClosestDeliveryTile _ _ _); [apply Hroute | cbn [final]; auto].
    + cbn [final]. auto.
  - intros allParcels. unfold updateCarriedParcels, sameSetup. step.
    destruct (myId (beliefs s)); [|cbn; auto 10].
    step. destruct (_ && _); unfold resetBlockState; step; cbn; auto 10.
Qed.

Lemma evaluateDetourParcels_some (s : DeliveryStrategy) (p : Parcel.t) :
  result (evaluateDetourParcels s) = Returned (Some p) ->
  exists cur tile,
    myPosition (beliefs s) = Some cur
    /\ getClosestDeliveryTile (beliefs s) (Position.x cur) (Position.y cur)
       = Some tile
    /\ validDetour s cur tile p
    /\ In p (availableParcels (beliefs s)).
Proof.
  intros Hres. pose proof Hres as Hrun.
  rewrite evaluateDetourParcels_run in Hrun.
  destruct (myPosition (beliefs s)) as [cur|] eqn:Hpos; [|discriminate].
  destruct (getClosestDeliveryTile _ _ _) as [tile|] eqn:Htile; [|discriminate].
  exists cur, tile. split; [reflexivity|]. split; [exact Htile|].
  split; [exact (evaluateDetourParcels_sound s cur tile p Hpos Htile Hres)|].
  cbv zeta in Hrun. destruct (legReachable _ _ _ _ _); [|discriminate].
  cbn [result] in Hrun. injection Hrun as Hbest.
  apply pickBest_In in Hbest. destruct Hbest as [H | H]; [exact H | discriminate].
Qed.

(** X6.  Each action [getDeliveryAction] hands back is justified by the
    beliefs: there are carried parcels and a known position; [Putdown] is
    returned only on a delivery tile; [Pickup] only off a delivery tile and
    for the id of an available parcel that lies on the agent's cell, is not
    carried and is worth more than the threshold; [Move] only off a delivery
    tile, with a non-empty move name that the router gave for stepping from
    the agent's cell onto a cell that [isBlockedByOtherAgent] does not report
    as blocked: the agent's own id is unknown, or there is no agents
    collection, or no agent with another id is in that cell. *)
Theorem getDeliveryAction_action_sound (s : DeliveryStrategy) (a : Action) :
  result (getDeliveryAction s) = Returned (Some a) ->
  carriedParcels s <> []
  /\ exists cur,
       myPosition (beliefs s) = Some cur
       /\ match a with
          | Putdown =>
              isDeliveryTile (beliefs s) (Position.x cur) (Position.y cur) = true
          | Pickup target =>
              isDeliveryTile (beliefs s) (Position.x cur) (Position.y cur) = false
              /\ exists p,
                   In p (availableParcels (beliefs s))
                   /\ Parcel.id p = target
                   /\ Parcel.x p = Position.x cur
                   /\ Parcel.y p = Position.y cur
                   /\ truthy (Parcel.carriedBy p) = false
                   /\ deliveryThreshold s < Parcel.reward p
          | Move name =>
              isDeliveryTile (beliefs s) (Position.x cur) (Position.y cur) = false
              /\ name <> EmptyString
              /\ exists nextStep,
                   getActionToNextStep (pathfinder s)
                     (Position.x cur) (Position.y cur)
                     (Position.x nextStep) (Position.y nextStep) = Some name
                   /\ notReportedBlocked s (Position.x nextStep)
                                             (Position.y nextStep)
          end.
Proof.
  rewrite getDeliveryAction_run.
  destruct (carriedParcels s) as [|p0 more]; [discriminate|].
  destruct (myPosition (beliefs s)) as [cur|] eqn:Hpos; [|discriminate].
  cbv zeta. intros Hres. split; [discriminate|].
  exists cur. split; [reflexivity|].
  assert (Hroute : forall tx ty before,
            isDeliveryTile (beliefs s) (Position.x cur) (Position.y cur) = false ->
            result (routeThenFollow s (Position.x cur) (Position.y cur) tx ty before)
            = Returned (Some a) ->
            match a with
            | Putdown =>
                isDeliveryTile (beliefs s) (Position.x cur) (Position.y cur) = true
            | Pickup target =>
                isDeliveryTile (beliefs s) (Position.x cur) (Position.y cur) = false
                /\ exists p,
                     In p (availableParcels (beliefs s))
                     /\ Parcel.id p = target
                     /\ Parcel.x p = Position.x cur
                     /\ Parcel.y p = Position.y cur
                     /\ truthy (Parcel.carriedBy p) = false
                     /\ deliveryThreshold s < Parcel.reward p
            | Move name =>
                isDeliveryTile (beliefs s) (Position.x cur) (Position.y cur) = false
                /\ name <> EmptyString
                /\ exists nextStep,
                     getActionToNextStep (pathfinder s)
                       (Position.x cur) (Position.y cur)
                       (Position.x nextStep) (Position.y nextStep) = Some name
                     /\ notReportedBlocked s (Position.x nextStep)
                                               (Position.y nextStep)
            end).
  { intros tx ty before Htile Hfollow. unfold routeThenFollow in Hfollow.
    cbn [result] in Hfollow.
    apply followDeliveryPath_action in Hfollow.
    destruct Hfollow as (name & nextStep & rest & -> & Hne & _ & Hfree & Hact & _).
    split; [exact Htile|]. split; [exact Hne|]. exists nextStep.
    apply notReportedBlocked_iff in Hfree.
    destruct (needsNewPath _ _ _); auto. }
  destruct (isDeliveryTile _ _ _) eqn:Htile.
  { cbn [result] in Hres. injection Hres as <-. reflexivity. }
  destruct (result (evaluateDetourParcels s)) as [[detour|]|e] eqn:Hev.
  - destruct (isAtPosition _ _ _ _) eqn:Hat; [|exact (Hroute _ _ _ eq_refl Hres)].
    cbn [result] in Hres. injection Hres as <-.
    split; [reflexivity|]. exists detour.
    destruct (evaluateDetourParcels_some s detour Hev)
      as (cur' & tile & Hpos' & _ & Hvalid & Hin).
    unfold isAtPosition in Hat. rewrite andb_true_iff, !Z.eqb_eq in Hat.
    destruct Hat as [Hx Hy], Hvalid as [Hfree Hreward _ _ _ _].
    auto 10.
  - destruct (getClosestDeliveryTile _ _ _);
      [exact (Hroute _ _ _ eq_refl Hres) | discriminate].
  - discriminate.
Qed.

(** A pickup with a known id, and a move with an unknown id onto a tile
    where another agent stands. *)
Lemma getDeliveryAction_action_sound_witness :
  (carriedParcels pickupWorld <> []
   /\ exists cur,
        myPosition (beliefs pickupWorld) = Some cur
        /\ isDeliveryTile (beliefs pickupWorld) (Position.x cur) (Position.y cur)
           = false
        /\ exists p,
             In p (availableParcels (beliefs pickupWorld))
             /\ Parcel.id p = "p2"%string
             /\ Parcel.x p = Position.x cur
             /\ Parcel.y p = Position.y cur
             /\ truthy (Parcel.carriedBy p) = false
             /\ deliveryThreshold pickupWorld < Parcel.reward p)
  /\ (carriedParcels anonymousWorld <> []
      /\ exists cur,
           myPosition (beliefs anonymousWorld) = Some cur
           /\ isDeliveryTile (beliefs anonymousWorld)
                             (Position.x cur) (Position.y cur) = false
           /\ "right"%string <> EmptyString
           /\ exists nextStep,
                getActionToNextStep (pathfinder anonymousWorld)
                  (Position.x cur) (Position.y cur)
                  (Position.x nextStep) (Position.y nextStep)
                = Some "right"%string
                /\ notReportedBlocked anonymousWorld (Position.x nextStep)
                                                     (Position.y nextStep)).
Proof.
  split.
  - apply (getDeliveryAction_action_sound pickupWorld (Pickup "p2")).
    reflexivity.
  - apply (getDeliveryAction_action_sound anonymousWorld (Move "right")).
    reflexivity.
Defined.

(** *** Following the route *)

(** X7.  [followDeliveryPath] hands back nothing or a move, never [Putdown]
    or [Pickup].  A move is returned only when the path has a first step that
    [isBlockedByOtherAgent] does not report as blocked (the agent's own id is
    unknown, or there is no agents collection, or no agent with another id
    is in that cell) and the router named a non-empty move onto it from the
    given cell; exactly that step is then consumed and the block state ends
    as (null, 0). *)
Theorem followDeliveryPath_moves_only_when_free (currentX currentY : Z)
    (s : DeliveryStrategy) (a : Action) :
  result (followDeliveryPath currentX currentY s) = Returned (Some a) ->
  exists name nextStep rest,
    a = Move name
    /\ name <> EmptyString
    /\ deliveryPath s = nextStep :: rest
    /\ result (isBlockedByOtherAgent (Position.x nextStep) (Position.y nextStep) s)
       = Returned false
    /\ notReportedBlocked s (Position.x nextStep) (Position.y nextStep)
    /\ getActionToNextStep (pathfinder s) currentX currentY
         (Position.x nextStep) (Position.y nextStep) = Some name
    /\ deliveryPath (final (followDeliveryPath currentX currentY s)) = rest
    /\ blockStateReset (final (followDeliveryPath currentX currentY s)).
Proof.
  intros Hres. apply followDeliveryPath_action in Hres.
  destruct Hres as (name & nextStep & rest & Ha & Hne & Hpath & Hfree & Hact & Hfinal).
  exists name, nextStep, rest. rewrite Hfinal.
  rewrite (isBlocked_false _ _ _ Hfree).
  apply notReportedBlocked_iff in Hfree.
  unfold blockStateReset. cbn. auto 10.
Qed.

(** With a known id and nobody else around, and with an unknown id and
    another agent on the next tile: both move right. *)
Lemma followDeliveryPath_moves_only_when_free_witness :
  (exists name nextStep rest,
     Move "right" = Move name
     /\ name <> EmptyString
     /\ deliveryPath (freeWorld corridor) = nextStep :: rest
     /\ result (isBlockedByOtherAgent (Position.x nextStep) (Position.y nextStep)
                                       (freeWorld corridor))
        = Returned false
     /\ notReportedBlocked (freeWorld corridor)
                           (Position.x nextStep) (Position.y nextStep)
     /\ getActionToNextStep (pathfinder (freeWorld corridor)) 0 0
          (Position.x nextStep) (Position.y nextStep) = Some name
     /\ deliveryPath (final (followDeliveryPath 0 0 (freeWorld corridor))) = rest
     /\ blockStateReset (final (followDeliveryPath 0 0 (freeWorld corridor))))
  /\ (exists name nextStep rest,
        Move "right" = Move name
        /\ name <> EmptyString
        /\ deliveryPath anonymousWorld = nextStep :: rest
        /\ result (isBlockedByOtherAgent (Position.x nextStep) (Position.y nextStep)
                                          anonymousWorld)
           = Returned false
        /\ notReportedBlocked anonymousWorld
                              (Position.x nextStep) (Position.y nextStep)
        /\ getActionToNextStep (pathfinder anonymousWorld) 0 0
             (Position.x nextStep) (Position.y nextStep) = Some name
        /\ deliveryPath (final (followDeliveryPath 0 0 anonymousWorld)) = rest
        /\ blockStateReset (final (followDeliveryPath 0 0 anonymousWorld))).
Proof.
  split.
  - apply (followDeliveryPath_moves_only_when_free 0 0 (freeWorld corridor)
             (Move "right")).
    reflexivity.
  - apply (followDeliveryPath_moves_only_when_free 0 0 anonymousWorld
             (Move "right")).
    reflexivity.
Defined.

Lemma pathLeadsTo_tail (nextStep : Position.t) (rest : list Position.t)
    (targetX targetY : Z) :
  pathLeadsTo (nextStep :: rest) targetX targetY ->
  rest = [] \/ pathLeadsTo rest targetX targetY.
Proof.
  intros (front & finalStep & Hsplit & Hx & Hy).
  destruct front as [|first front'].
  - left. cbn in Hsplit. congruence.
  - right. cbn in Hsplit. injection Hsplit as _ ->.
    exists front', finalStep. auto.
Qed.

(** X8.  [followDeliveryPath] never lengthens or reorders the route: the
    path afterwards is the path before, or the path before without its first
    step, or empty.  A route that ended on some target still ends on that
    target afterwards unless it has become empty. *)
Theorem followDeliveryPath_path_shrinks (currentX currentY : Z)
    (s : DeliveryStrategy) :
  let after := deliveryPath (final (followDeliveryPath currentX currentY s)) in
  (after = deliveryPath s \/ after = tl (deliveryPath s) \/ after = [])
  /\ forall targetX targetY,
       pathLeadsTo (deliveryPath s) targetX targetY ->
       after = [] \/ pathLeadsTo after targetX targetY.
Proof.
  cbv zeta.
  destruct (followDeliveryPath_cases currentX currentY s)
    as [[Hpath Hrun] | [(nextStep & rest & Hpath & _ & Hrun)
                       | (nextStep & rest & Hpath & _ & Hrun)]];
    rewrite Hrun; cbv zeta; cbn [final].
  - cbn. rewrite Hpath. auto.
  - destruct (isSameTile _ _ _); [destruct (_ <=? _)|]; cbn; auto.
  - destruct (truthy (getActionToNextStep _ _ _ _ _)); cbn; [|auto].
    rewrite Hpath. cbn [tl]. split; [auto|].
    intros targetX targetY. apply pathLeadsTo_tail.
Qed.

(** X9.  Whenever [followDeliveryPath] ends with a tile recorded as blocked,
    that tile is the first step of the route, another agent is seen on it,
    the route has been kept whole and no action was returned. *)
Theorem followDeliveryPath_recorded_block (currentX currentY : Z)
    (s : DeliveryStrategy) (tile : Position.t) :
  blockedTargetTile (final (followDeliveryPath currentX currentY s)) = Some tile ->
  exists nextStep rest,
    deliveryPath s = nextStep :: rest
    /\ Position.x tile = Position.x nextStep
    /\ Position.y tile = Position.y nextStep
    /\ occupiedByOther s (Position.x nextStep) (Position.y nextStep)
    /\ deliveryPath (final (followDeliveryPath currentX currentY s))
       = deliveryPath s
    /\ result (followDeliveryPath currentX currentY s) = Returned None.
Proof.
  destruct (followDeliveryPath_cases currentX currentY s)
    as [[Hpath Hrun] | [(nextStep & rest & Hpath & Hocc & Hrun)
                       | (nextStep & rest & Hpath & _ & Hrun)]];
    rewrite Hrun; cbv zeta; cbn [final result].
  - cbn. discriminate.
  - intros Htile. exists nextStep, rest.
    destruct (blockedTargetTile s) as [old|] eqn:Hold; cbn [isSameTile] in *.
    + destruct ((Position.x old =? Position.x nextStep)
                && (Position.y old =? Position.y nextStep)) eqn:Hsame.
      * apply andb_true_iff in Hsame. rewrite !Z.eqb_eq in Hsame.
        destruct (_ <=? _); cbn in Htile; [discriminate|].
        rewrite Hold in Htile. injection Htile as <-.
        cbn. destruct Hsame. auto 10.
      * cbn in Htile. injection Htile as <-. cbn. auto 10.
    + cbn in Htile. injection Htile as <-. cbn. auto 10.
  - destruct (truthy (getActionToNextStep _ _ _ _ _)); cbn; discriminate.
Qed.

Lemma followDeliveryPath_recorded_block_witness :
  exists nextStep rest,
    deliveryPath (blockedWorld None 0) = nextStep :: rest
    /\ Position.x (Position.mk 1 0) = Position.x nextStep
    /\ Position.y (Position.mk 1 0) = Position.y nextStep
    /\ occupiedByOther (blockedWorld None 0)
                       (Position.x nextStep) (Position.y nextStep)
    /\ deliveryPath (final (followDeliveryPath 0 0 (blockedWorld None 0)))
       = deliveryPath (blockedWorld None 0)
    /\ result (followDeliveryPath 0 0 (blockedWorld None 0)) = Returned None.
Proof.
  apply (followDeliveryPath_recorded_block 0 0 (blockedWorld None 0)
           (Position.mk 1 0)).
  reflexivity.
Defined.

Lemma followDeliveryPath_blockStateOk (currentX currentY : Z)
    (s : DeliveryStrategy) :
  blockStateOk s -> blockStateOk (final (followDeliveryPath currentX currentY s)).
Proof.
  unfold blockStateOk. intros Hok.
  destruct (followDeliveryPath_cases currentX currentY s)
    as [[Hpath Hrun] | [(nextStep & rest & Hpath & _ & Hrun)
                       | (nextStep & rest & Hpath & _ & Hrun)]];
    rewrite Hrun; cbv zeta; cbn [final].
  - cbn. reflexivity.
  - destruct (blockedTargetTile s) as [old|] eqn:Hold; cbn [isSameTile].
    + destruct (_ && _); [|cbn; lia].
      destruct (Z.leb_spec (BLOCKED_TIMEOUT s) (blockedCounter s + 1));
        cbn; [reflexivity|]. rewrite Hold. lia.
    + cbn. lia.
  - destruct (truthy (getActionToNextStep _ _ _ _ _)); cbn; reflexivity.
Qed.

(** X10.  The block state stays well formed through every operation: from a
    state where it is (null, 0), or a recorded tile with a count of at least
    one that is below [BLOCKED_TIMEOUT] unless it is the first count, each
    of [followDeliveryPath], [getDeliveryAction] and [updateCarriedParcels]
    ends in such a state again.  A count is thus never left at or above a
    timeout of two or more. *)
Theorem blockStateOk_preserved (s : DeliveryStrategy) :
  blockStateOk s ->
  (forall currentX currentY,
     blockStateOk (final (followDeliveryPath currentX currentY s)))
  /\ blockStateOk (final (getDeliveryAction s))
  /\ (forall allParcels, blockStateOk (final (updateCarriedParcels allParcels s)))
  /\ (2 <= BLOCKED_TIMEOUT s -> blockedCounter s < BLOCKED_TIMEOUT s).
Proof.
  intros Hok. split; [intros; apply followDeliveryPath_blockStateOk, Hok|].
  split; [|split].
  - rewrite getDeliveryAction_run.
    assert (Hroute : forall cx cy tx ty before,
              blockStateOk (final (routeThenFollow s cx cy tx ty before))).
    { intros. unfold routeThenFollow. cbn [final].
      apply followDeliveryPath_blockStateOk.
      destruct (needsNewPath _ _ _); exact Hok. }
    destruct (carriedParcels s) as [|p0 more]; [exact Hok|].
    destruct (myPosition (beliefs s)) as [cur|]; [|exact Hok].
    cbv zeta. destruct (isDeliveryTile _ _ _); [exact Hok|].
    destruct (result (evaluateDetourParcels s)) as [[detour|]|e].
    + destruct (isAtPosition _ _ _ _); [exact Hok | apply Hroute].
    + destruct (getClosestDeliveryTile _ _ _); [apply Hroute | exact Hok].
    + exact Hok.
  - intros allParcels. unfold updateCarriedParcels. step.
    destruct (myId (beliefs s)); [|exact Hok].
    step. destruct (_ && _); unfold resetBlockState; step; [|exact Hok].
    cbn. unfold blockStateOk. reflexivity.
  - unfold blockStateOk in Hok.
    destruct (blockedTargetTile s); lia.
Qed.

Lemma blockStateOk_preserved_witness :
  blockStateOk (blockedWorld (Some (Position.mk 1 0)) 2)
  /\ blockStateOk (final (getDeliveryAction (blockedWorld (Some (Position.mk 1 0)) 2)))
  /\ blockedCounter (blockedWorld (Some (Position.mk 1 0)) 2)
     < BLOCKED_TIMEOUT (blockedWorld (Some (Position.mk 1 0)) 2).
Proof.
  assert (Hok : blockStateOk (blockedWorld (Some (Position.mk 1 0)) 2))
    by (unfold blockStateOk; simpl; lia).
  split; [exact Hok|].
  destruct (blockStateOk_preserved (blockedWorld (Some (Position.mk 1 0)) 2) Hok)
    as (_ & Haction & _ & Hbound).
  split; [exact Haction|]. apply Hbound. simpl. lia.
Defined.

Lemma followTurns_last (n : nat) (currentX currentY : Z) :
  forall s,
    followTurns (S n) currentX currentY s
    = final (followDeliveryPath currentX currentY
               (followTurns n currentX currentY s)).
Proof.
  induction n as [|k IH]; intros s; [reflexivity|].
  cbn [followTurns] in *. rewrite IH. reflexivity.
Qed.

(** X11.  Blocked on the recorded tile turn after turn, with the beliefs
    unchanged: if the count reaches [BLOCKED_TIMEOUT] on turn [n + 1], then
    after each of the first [n] turns the route is still whole and the count
    has grown by one per turn, and turn [n + 1] is the one that empties the
    route and resets the block state to (null, 0). *)
Theorem blocked_route_timeline (currentX currentY : Z) (n : nat)
    (s : DeliveryStrategy) (nextStep tile : Position.t) (rest : list Position.t) :
  deliveryPath s = nextStep :: rest ->
  occupiedByOther s (Position.x nextStep) (Position.y nextStep) ->
  blockedTargetTile s = Some tile ->
  Position.x tile = Position.x nextStep ->
  Position.y tile = Position.y nextStep ->
  blockedCounter s + Z.of_nat n + 1 = BLOCKED_TIMEOUT s ->
  (forall k, (k <= n)%nat ->
     deliveryPath (followTurns k currentX currentY s) = deliveryPath s
     /\ blockedCounter (followTurns k currentX currentY s)
        = blockedCounter s + Z.of_nat k)
  /\ deliveryPath (followTurns (S n) currentX currentY s) = []
  /\ blockStateReset (followTurns (S n) currentX currentY s).
Proof.
  intros Hpath Hocc Htile Hx Hy Hreach. split.
  - intros k Hk.
    destruct (blocked_turns currentX currentY k s nextStep tile rest)
      as (_ & _ & Hp & _ & Hc); auto. lia.
  - destruct (blocked_turns currentX currentY n s nextStep tile rest)
      as (Hb & Ht & Hp & Htl & Hc); auto; [lia|].
    rewrite followTurns_last.
    revert Hb Ht Hp Htl Hc. generalize (followTurns n currentX currentY s).
    intros s' Hb Ht Hp Htl Hc.
    rewrite (followDeliveryPath_blocked_run currentX currentY s' nextStep rest).
    + rewrite Htl, Htile. cbn [isSameTile]. rewrite Hx, Hy, !Z.eqb_refl.
      cbn [andb final]. rewrite Ht, Hc.
      destruct (Z.leb_spec (BLOCKED_TIMEOUT s) (blockedCounter s + Z.of_nat n + 1));
        [|lia].
      unfold blockStateReset. cbn. auto.
    + rewrite Hp. exact Hpath.
    + destruct Hocc as (Hme & others & agent & Hsome & Hin & Hid & Hxy).
      split; [rewrite Hb; exact Hme|].
      exists others, agent. rewrite Hb. split; [exact Hsome|].
      split; [exact Hin|]. unfold otherAgentAt. rewrite Hb. auto.
Qed.

(** From count 1 with timeout 3: the first further turn keeps the route, the
    second clears it. *)
Lemma blocked_route_timeline_witness :
  let s := blockedWorld (Some (Position.mk 1 0)) 1 in
  (forall k, (k <= 1)%nat ->
     deliveryPath (followTurns k 0 0 s) = deliveryPath s
     /\ blockedCounter (followTurns k 0 0 s) = blockedCounter s + Z.of_nat k)
  /\ deliveryPath (followTurns 2 0 0 s) = []
  /\ blockStateReset (followTurns 2 0 0 s).
Proof.
  apply (blocked_route_timeline 0 0 1 (blockedWorld (Some (Position.mk 1 0)) 1)
           (Position.mk 1 0) (Position.mk 1 0) (eastward 1 4)).
  - reflexivity.
  - apply blockedWorld_occupied.
  - reflexivity.
  - reflexivity.
  - reflexivity.
  - reflexivity.
Defined.

(** *** Routes that cannot be found *)

(** X12.  When [getDeliveryAction] has to compute a route to its target and
    the router finds none, the turn ends with no action: after the detour
    evaluation exactly one [findPath] is made, [deliveryPath] stays empty and
    the block state is reset to (null, 0). *)
Theorem getDeliveryAction_unreachable_target (s : DeliveryStrategy)
    (cur : Position.t) (targetX targetY : Z) :
  carriedParcels s <> [] ->
  myPosition (beliefs s) = Some cur ->
  isDeliveryTile (beliefs s) (Position.x cur) (Position.y cur) = false ->
  currentTarget s cur = Some (targetX, targetY) ->
  ~ pathLeadsTo (deliveryPath s) targetX targetY ->
  findPath (pathfinder s) (Position.x cur) (Position.y cur) targetX targetY = [] ->
  let r := getDeliveryAction s in
  result r = Returned None
  /\ deliveryPath (final r) = []
  /\ blockStateReset (final r)
  /\ calls r = calls (evaluateDetourParcels s)
               ++ [CallFindPath (Position.x cur) (Position.y cur) targetX targetY].
Proof.
  intros Hcarry Hpos Htile Htarget Hstale Hnone. cbv zeta.
  assert (Hroute : forall before,
            let r := routeThenFollow s (Position.x cur) (Position.y cur)
                                     targetX targetY before in
            result r = Returned None
            /\ deliveryPath (final r) = []
            /\ blockStateReset (final r)
            /\ calls r = before
                         ++ [CallFindPath (Position.x cur) (Position.y cur)
                                          targetX targetY]).
  { intros before. cbv zeta. unfold routeThenFollow.
    destruct (needsNewPath _ _ _) eqn:Hneeds;
      [|apply needsNewPath_false_iff in Hneeds; contradiction].
    rewrite Hnone, followDeliveryPath_empty_run by reflexivity.
    cbn [result final calls]. unfold blockStateReset. cbn. auto. }
  rewrite getDeliveryAction_run.
  destruct (carriedParcels s) as [|p0 more]; [contradiction|].
  rewrite Hpos. cbv zeta. rewrite Htile.
  unfold currentTarget in Htarget.
  destruct (result (evaluateDetourParcels s)) as [[detour|]|e];
    [| |discriminate].
  - destruct (isAtPosition _ _ _ _); [discriminate|].
    injection Htarget as <- <-. apply Hroute.
  - destruct (getClosestDeliveryTile _ _ _) as [tile|]; [|discriminate].
    injection Htarget as <- <-. apply Hroute.
Qed.

(** Off the corridor the router finds no route to the delivery tile. *)
Lemma getDeliveryAction_unreachable_target_witness :
  let r := getDeliveryAction strandedWorld in
  result r = Returned None
  /\ deliveryPath (final r) = []
  /\ blockStateReset (final r)
  /\ calls r = calls (evaluateDetourParcels strandedWorld)
               ++ [CallFindPath 0 1 5 0].
Proof.
  apply (getDeliveryAction_unreachable_target strandedWorld (Position.mk 0 1) 5 0).
  - discriminate.
  - reflexivity.
  - reflexivity.
  - reflexivity.
  - intros (front & finalStep & H & _). destruct front; discriminate H.
  - reflexivity.
Defined.

(** *** Detour evaluation beyond the choice it makes *)

Lemma loopCalls_length (s : DeliveryStrategy) (cur tile : Position.t)
    (parcels : list Parcel.t) :
  (length (loopCalls s cur tile parcels) <= 2 * length parcels)%nat.
Proof.
  induction parcels as [|p rest IH]; [cbn; lia|].
  cbn [loopCalls length]. rewrite length_app.
  destruct (legReachable _ _ _ _ _); cbn [length]; lia.
Qed.

Lemma loopCalls_findPath (s : DeliveryStrategy) (cur tile : Position.t)
    (parcels : list Parcel.t) :
  forallb isFindPathCall (loopCalls s cur tile parcels) = true.
Proof.
  induction parcels as [|p rest IH]; [reflexivity|].
  cbn [loopCalls forallb isFindPathCall andb]. rewrite forallb_app, IH.
  destruct (legReachable _ _ _ _ _); reflexivity.
Qed.

Lemma potentialDetourParcels_length (s : DeliveryStrategy) :
  (length (potentialDetourParcels s) <= length (availableParcels (beliefs s)))%nat.
Proof.
  unfold potentialDetourParcels.
  etransitivity; [apply filter_length_le|]. apply filter_length_le.
Qed.

Lemma evaluateDetourParcels_calls (s : DeliveryStrategy) :
  forallb isFindPathCall (calls (evaluateDetourParcels s)) = true
  /\ (length (calls (evaluateDetourParcels s))
      <= 1 + 2 * length (availableParcels (beliefs s)))%nat.
Proof.
  rewrite evaluateDetourParcels_run.
  destruct (myPosition (beliefs s)) as [cur|]; [|cbn; split; [reflexivity | lia]].
  destruct (getClosestDeliveryTile _ _ _) as [tile|];
    [|cbn; split; [reflexivity | lia]].
  cbv zeta. destruct (legReachable _ _ _ _ _); cbn [calls];
    [|cbn; split; [reflexivity | lia]].
  cbn [forallb isFindPathCall andb length]. split; [apply loopCalls_findPath|].
  pose proof (loopCalls_length s cur tile (potentialDetourParcels s)).
  pose proof (potentialDetourParcels_length s). lia.
Qed.

Lemma followDeliveryPath_calls_length (currentX currentY : Z) (s : DeliveryStrategy) :
  (length (calls (followDeliveryPath currentX currentY s)) <= 1)%nat.
Proof.
  destruct (followDeliveryPath_cases currentX currentY s)
    as [[_ Hrun] | [(nextStep & rest & _ & _ & Hrun)
                   | (nextStep & rest & _ & _ & Hrun)]];
    rewrite Hrun; cbv zeta; cbn; lia.
Qed.

(** X13.  Detour evaluation asks the router for routes only, never for a
    move, and at most once for the way home plus twice per available parcel:
    the number of router calls is bounded by [1 + 2 * |availableParcels|]. *)
Theorem evaluateDetourParcels_router_calls (s : DeliveryStrategy) :
  (forall c, In c (calls (evaluateDetourParcels s)) ->
             exists x1 y1 x2 y2, c = CallFindPath x1 y1 x2 y2)
  /\ (length (calls (evaluateDetourParcels s))
      <= 1 + 2 * length (availableParcels (beliefs s)))%nat.
Proof.
  destruct (evaluateDetourParcels_calls s) as [Hall Hlen].
  split; [|exact Hlen].
  intros c Hin. rewrite forallb_forall in Hall. specialize (Hall c Hin).
  destruct c as [x1 y1 x2 y2|]; [eauto | discriminate].
Qed.

(** X14.  Without a way home there is no detour.  With a known position,
    when the beliefs know no delivery tile the evaluation returns nothing
    without consulting the router; when the router finds no route to the
    nearest delivery tile it returns nothing after that single call,
    whatever parcels are on offer. *)
Theorem evaluateDetourParcels_no_way_home (s : DeliveryStrategy)
    (cur : Position.t) :
  myPosition (beliefs s) = Some cur ->
  (getClosestDeliveryTile (beliefs s) (Position.x cur) (Position.y cur) = None ->
   evaluateDetourParcels s = mkRun (Returned None) s [])
  /\ forall tile,
       getClosestDeliveryTile (beliefs s) (Position.x cur) (Position.y cur)
       = Some tile ->
       ~ reachable s (Position.x cur) (Position.y cur)
                     (Position.x tile) (Position.y tile) ->
       evaluateDetourParcels s
       = mkRun (Returned None) s
               [CallFindPath (Position.x cur) (Position.y cur)
                             (Position.x tile) (Position.y tile)].
Proof.
  intros Hpos. split.
  - intros Hnone. rewrite evaluateDetourParcels_run, Hpos, Hnone. reflexivity.
  - intros tile Htile Hunreachable.
    rewrite evaluateDetourParcels_run, Hpos, Htile. cbv zeta.
    destruct (legReachable _ _ _ _ _) eqn:Hleg; [|reflexivity].
    apply legReachable_iff in Hleg. contradiction.
Qed.

(** Off the corridor, with a parcel of reward 50 one cell away. *)
Lemma evaluateDetourParcels_no_way_home_witness :
  evaluateDetourParcels strandedWorld
  = mkRun (Returned None) strandedWorld [CallFindPath 0 1 5 0].
Proof.
  destruct (evaluateDetourParcels_no_way_home strandedWorld (Position.mk 0 1))
    as [_ Hunreachable].
  - reflexivity.
  - apply (Hunreachable (Position.mk 5 0)).
    + reflexivity.
    + intros Hreach. apply legReachable_iff in Hreach. discriminate Hreach.
Defined.

Lemma sameSetup_pointwise (s s' : DeliveryStrategy) :
  sameSetup s s' ->
  (forall x1 y1 x2 y2, legReachable s' x1 y1 x2 y2 = legReachable s x1 y1 x2 y2)
  /\ (forall cur tile p, passesRouting s' cur tile p = passesRouting s cur tile p)
  /\ (forall p, passesFilters s' p = passesFilters s p)
  /\ (forall cur tile p, detourScore s' cur tile p = detourScore s cur tile p).
Proof.
  intros (Hb & Hp & Ht & Hm & _).
  repeat split; intros;
    unfold passesRouting, passesFilters, detourScore, addedSteps, legReachable,
           routeLength;
    rewrite ?Hb, ?Hp, ?Ht, ?Hm; reflexivity.
Qed.

Lemma pickBest_ext_score {A} (ok : A -> bool) (f f' : A -> score) (l : list A) :
  (forall a, f a = f' a) ->
  forall best bestScore,
    pickBest ok f l best bestScore = pickBest ok f' l best bestScore.
Proof.
  intros Hext. induction l as [|a rest IH]; intros best bestScore;
    [reflexivity|].
  cbn [pickBest]. rewrite <- Hext.
  destruct (ok a); [destruct (js_gt (f a) bestScore)|]; apply IH.
Qed.

Lemma loopCalls_sameSetup (s s' : DeliveryStrategy) (cur tile : Position.t)
    (parcels : list Parcel.t) :
  sameSetup s s' ->
  loopCalls s' cur tile parcels = loopCalls s cur tile parcels.
Proof.
  intros Hsame. destruct (sameSetup_pointwise s s' Hsame) as (Hleg & _).
  induction parcels as [|p rest IH]; [reflexivity|].
  cbn [loopCalls]. rewrite Hleg, IH. reflexivity.
Qed.

(** Detour evaluation reads the beliefs, the router and the configuration
    only. *)
Lemma evaluateDetourParcels_sameSetup (s s' : DeliveryStrategy) :
  sameSetup s s' ->
  result (evaluateDetourParcels s') = result (evaluateDetourParcels s)
  /\ calls (evaluateDetourParcels s') = calls (evaluateDetourParcels s).
Proof.
  intros Hsame.
  destruct (sameSetup_pointwise s s' Hsame) as (Hleg & Hrouting & Hfilters & Hscore).
  pose proof Hsame as (Hb & Hp & Ht & Hm & _).
  rewrite !evaluateDetourParcels_run, Hb.
  destruct (myPosition (beliefs s)) as [cur|]; [|split; reflexivity].
  destruct (getClosestDeliveryTile _ _ _) as [home|]; [|split; reflexivity].
  cbv zeta. rewrite Hleg.
  destruct (legReachable s _ _ _ _); [|split; reflexivity].
  cbn [result calls]. split.
  - f_equal. f_equal.
    rewrite (pickBest_ext_score _ (detourScore s' cur home)
               (detourScore s cur home)) by (intros; apply Hscore).
    apply pickBest_ext. intros a. rewrite Hfilters, Hrouting. reflexivity.
  - f_equal. rewrite (loopCalls_sameSetup s s' cur home _ Hsame). f_equal.
    unfold potentialDetourParcels. rewrite Hb, Ht, Hm. reflexivity.
Qed.

(** X15.  The detour chosen does not depend on the strategy's working fields:
    replacing [carriedParcels], [deliveryPath], [blockedTargetTile] and
    [blockedCounter] by anything else changes neither what
    [evaluateDetourParcels] returns nor the router calls it makes. *)
Theorem evaluateDetourParcels_ignores_working_fields (s : DeliveryStrategy)
    (carried : list Parcel.t) (path : list Position.t)
    (tile : option Position.t) (counter : Z) :
  let s' := withWorkingFields carried path tile counter s in
  result (evaluateDetourParcels s') = result (evaluateDetourParcels s)
  /\ calls (evaluateDetourParcels s') = calls (evaluateDetourParcels s).
Proof.
  cbv zeta. apply evaluateDetourParcels_sameSetup.
  unfold sameSetup, withWorkingFields. cbn. auto 10.
Qed.


(** *** Router calls of a whole turn *)

Lemma followDeliveryPath_calls_moves (currentX currentY : Z) (s : DeliveryStrategy)
    (c : PfCall) :
  In c (calls (followDeliveryPath currentX currentY s)) ->
  exists nextX nextY, c = CallGetActionToNextStep currentX currentY nextX nextY.
Proof.
  destruct (followDeliveryPath_cases currentX currentY s)
    as [[_ Hrun] | [(nextStep & rest & _ & _ & Hrun)
                   | (nextStep & rest & _ & _ & Hrun)]];
    rewrite Hrun; cbv zeta; cbn [calls In]; try tauto.
  intros [<- | []]. eauto.
Qed.

(** X16.  The router calls of one [getDeliveryAction] are route requests
    followed by at most one move request: at most [2 + 2 * |availableParcels|]
    calls of [findPath] (the detour evaluation and one route to the target),
    then at most one call of [getActionToNextStep], made last. *)
Theorem getDeliveryAction_router_calls (s : DeliveryStrategy) :
  exists routes moves,
    calls (getDeliveryAction s) = routes ++ moves
    /\ (forall c, In c routes -> exists x1 y1 x2 y2, c = CallFindPath x1 y1 x2 y2)
    /\ (length routes <= 2 + 2 * length (availableParcels (beliefs s)))%nat
    /\ (length moves <= 1)%nat
    /\ (forall c, In c moves ->
                  exists cx cy nx ny, c = CallGetActionToNextStep cx cy nx ny).
Proof.
  destruct (evaluateDetourParcels_calls s) as [Hall Hlen].
  assert (Hroutes : forall c, In c (calls (evaluateDetourParcels s)) ->
                    exists x1 y1 x2 y2, c = CallFindPath x1 y1 x2 y2).
  { intros c Hin. rewrite forallb_forall in Hall. specialize (Hall c Hin).
    destruct c as [x1 y1 x2 y2|]; [eauto | discriminate]. }
  assert (Hnone : exists routes moves : list PfCall,
            @nil PfCall = routes ++ moves
            /\ (forall c, In c routes ->
                          exists x1 y1 x2 y2, c = CallFindPath x1 y1 x2 y2)
            /\ (length routes <= 2 + 2 * length (availableParcels (beliefs s)))%nat
            /\ (length moves <= 1)%nat
            /\ (forall c, In c moves ->
                          exists cx cy nx ny,
                            c = CallGetActionToNextStep cx cy nx ny)).
  { exists [], []. cbn [app length In].
    split; [reflexivity|]. split; [intros c []|].
    split; [lia|]. split; [lia | intros c []]. }
  assert (Hevaluated : exists routes moves : list PfCall,
            calls (evaluateDetourParcels s) = routes ++ moves
            /\ (forall c, In c routes ->
                          exists x1 y1 x2 y2, c = CallFindPath x1 y1 x2 y2)
            /\ (length routes <= 2 + 2 * length (availableParcels (beliefs s)))%nat
            /\ (length moves <= 1)%nat
            /\ (forall c, In c moves ->
                          exists cx cy nx ny,
                            c = CallGetActionToNextStep cx cy nx ny)).
  { exists (calls (evaluateDetourParcels s)), []. rewrite app_nil_r.
    cbn [length In].
    split; [reflexivity|]. split; [exact Hroutes|].
    split; [lia|]. split; [lia | intros c []]. }
  assert (Hrouted : forall cx cy tx ty,
            exists routes moves : list PfCall,
              calls (routeThenFollow s cx cy tx ty (calls (evaluateDetourParcels s)))
              = routes ++ moves
              /\ (forall c, In c routes ->
                            exists x1 y1 x2 y2, c = CallFindPath x1 y1 x2 y2)
              /\ (length routes
                  <= 2 + 2 * length (availableParcels (beliefs s)))%nat
              /\ (length moves <= 1)%nat
              /\ (forall c, In c moves ->
                            exists cx cy nx ny,
                              c = CallGetActionToNextStep cx cy nx ny)).
  { intros cx cy tx ty. unfold routeThenFollow. cbn [calls].
    set (stale := needsNewPath (deliveryPath s) tx ty).
    set (routed := if stale then _ else s).
    exists (calls (evaluateDetourParcels s)
            ++ (if stale then [CallFindPath cx cy tx ty] else [])),
           (calls (followDeliveryPath cx cy routed)).
    split; [rewrite app_assoc; reflexivity|]. split; [|split; [|split]].
    - intros c Hin. apply in_app_or in Hin. destruct Hin as [Hin | Hin]; auto.
      destruct stale; [|destruct Hin]. destruct Hin as [<- | []]. eauto.
    - rewrite length_app. destruct stale; cbn [length]; lia.
    - apply followDeliveryPath_calls_length.
    - intros c Hin. apply followDeliveryPath_calls_moves in Hin.
      destruct Hin as (nx & ny & ->). eauto. }
  rewrite getDeliveryAction_run.
  destruct (carriedParcels s) as [|p0 more]; [exact Hnone|].
  destruct (myPosition (beliefs s)) as [cur|]; [|exact Hnone].
  cbv zeta. destruct (isDeliveryTile _ _ _); [exact Hnone|].
  destruct (result (evaluateDetourParcels s)) as [[detour|]|e].
  - destruct (isAtPosition _ _ _ _); [exact Hevaluated | apply Hrouted].
  - destruct (getClosestDeliveryTile _ _ _); [apply Hrouted | exact Hevaluated].
  - exact Hevaluated.
Qed.

(** *** Carried parcels *)

Lemma updateCarriedParcels_final (s : DeliveryStrategy)
    (allParcels : list Parcel.t) :
  final (updateCarriedParcels allParcels s)
  = match myId (beliefs s) with
    | Some _ =>
        let mine := filter (fun p => strictEq (Parcel.carriedBy p)
                                              (myId (beliefs s)))
                           allParcels in
        if (len mine =? 0) && (0 <? len (deliveryPath s))
        then set_blockedCounter 0
               (set_blockedTargetTile None
                  (set_deliveryPath [] (set_carriedParcels mine s)))
        else set_carriedParcels mine s
    | None => set_carriedParcels [] s
    end.
Proof.
  unfold updateCarriedParcels. step.
  destruct (myId (beliefs s)); [|reflexivity].
  step. cbn [set_carriedParcels carriedParcels deliveryPath].
  destruct (_ && _); unfold resetBlockState; step; reflexivity.
Qed.

(** X17.  [updateCarriedParcels] is idempotent: a second call with the same
    parcel list leaves every field as the first call left it. *)
Theorem updateCarriedParcels_idempotent (s : DeliveryStrategy)
    (allParcels : list Parcel.t) :
  final (updateCarriedParcels allParcels
           (final (updateCarriedParcels allParcels s)))
  = final (updateCarriedParcels allParcels s).
Proof.
  rewrite (updateCarriedParcels_final (final (updateCarriedParcels allParcels s))).
  rewrite !updateCarriedParcels_final.
  destruct (myId (beliefs s)) as [me|] eqn:Hme; cbv zeta.
  - set (mine := filter _ allParcels).
    destruct ((len mine =? 0) && (0 <? len (deliveryPath s))) eqn:Hclear;
      cbn [beliefs deliveryPath set_blockedCounter set_blockedTargetTile
           set_deliveryPath set_carriedParcels];
      rewrite Hme; fold mine.
    + replace (0 <? len (@nil Position.t)) with false by reflexivity.
      rewrite andb_false_r. reflexivity.
    + rewrite Hclear. reflexivity.
  - cbn [beliefs set_carriedParcels]. rewrite Hme. reflexivity.
Qed.

(** X18.  After [updateCarriedParcels allParcels], [shouldDeliver] answers
    true exactly when the agent's id is known and some parcel of [allParcels]
    is carried by that id; it changes no field and makes no router call. *)
Theorem shouldDeliver_after_update (s : DeliveryStrategy)
    (allParcels : list Parcel.t) :
  let updated := final (updateCarriedParcels allParcels s) in
  final (shouldDeliver updated) = updated
  /\ calls (shouldDeliver updated) = []
  /\ (result (shouldDeliver updated) = Returned true
      <-> exists me p,
            myId (beliefs s) = Some me
            /\ In p allParcels
            /\ Parcel.carriedBy p = Some me).
Proof.
  cbv zeta. rewrite shouldDeliver_run. cbn [result final calls].
  split; [reflexivity|]. split; [reflexivity|].
  rewrite updateCarriedParcels_final.
  destruct (myId (beliefs s)) as [me|] eqn:Hme; cbv zeta.
  - set (mine := filter _ allParcels).
    assert (Hin : forall p, In p mine
                            <-> In p allParcels /\ Parcel.carriedBy p = Some me).
    { intros p. unfold mine. rewrite filter_In, strictEq_true_iff. reflexivity. }
    assert (Hcarried : carriedParcels
                         (if (len mine =? 0) && (0 <? len (deliveryPath s))
                          then set_blockedCounter 0
                                 (set_blockedTargetTile None
                                    (set_deliveryPath []
                                       (set_carriedParcels mine s)))
                          else set_carriedParcels mine s) = mine)
      by (destruct (_ && _); reflexivity).
    rewrite Hcarried. clear Hcarried. clearbody mine. unfold len. split.
    + intros H. injection H as H. apply Z.ltb_lt in H.
      destruct mine as [|p0 more]; [cbn in H; lia|].
      exists me, p0. split; [reflexivity|]. apply Hin. left. reflexivity.
    + intros (me' & p & Hsome & Hp & Hby). injection Hsome as <-.
      assert (Hmine : In p mine) by (apply Hin; auto).
      destruct mine as [|p0 more]; [destruct Hmine | reflexivity].
  - cbn. split; [discriminate|]. intros (me & _ & H & _). discriminate.
Qed.

(** *** The two pure tests *)

(** X19.  [isPathLeadingTo] looks at the last step only: a path with at
    least one step leads to a target exactly when its final step has the
    target's coordinates, whatever comes before, and the empty path leads
    nowhere. *)
Theorem isPathLeadingTo_last (front : list Position.t) (finalStep : Position.t)
    (targetX targetY : Z) :
  isPathLeadingTo (front ++ [finalStep]) targetX targetY
  = isAtPosition (Position.x finalStep) (Position.y finalStep) targetX targetY
  /\ isPathLeadingTo [] targetX targetY = false.
Proof.
  split; [|reflexivity].
  unfold isPathLeadingTo, isAtPosition, len. rewrite length_app. cbn [length].
  replace (Z.of_nat (length front + 1) =? 0) with false
    by (symmetry; apply Z.eqb_neq; lia).
  replace (length front + 1 - 1)%nat with (length front) by lia.
  rewrite nth_error_app2, Nat.sub_diag by lia. reflexivity.
Qed.

Lemma Qfloor_cell (q : Q) (z : Z) :
  Qfloor q = z <-> (inject_Z z <= q /\ q < inject_Z z + 1)%Q.
Proof.
  split.
  - intros <-. split; [apply Qfloor_le|].
    pose proof (Qlt_floor q) as H. rewrite inject_Z_plus in H. exact H.
  - intros [Hlow Hhigh]. apply Z.le_antisymm.
    + apply Z.lt_succ_r. rewrite Zlt_Qlt.
      apply Qle_lt_trans with (y := q); [apply Qfloor_le|].
      unfold Z.succ. rewrite inject_Z_plus. exact Hhigh.
    + rewrite <- (Qfloor_Z z). apply Qfloor_resp_le. exact Hlow.
Qed.

(** X20.  [isBlockedByOtherAgent] answers without touching a field or the
    router, and answers true exactly when the agent's own id is known and
    the agents collection holds an agent with another id whose coordinates
    lie in the unit square of the cell asked about; the agent's own record
    and agents in other cells never block. *)
Theorem isBlockedByOtherAgent_cell (x y : Z) (s : DeliveryStrategy) :
  final (isBlockedByOtherAgent x y s) = s
  /\ calls (isBlockedByOtherAgent x y s) = []
  /\ (result (isBlockedByOtherAgent x y s) = Returned true
      \/ result (isBlockedByOtherAgent x y s) = Returned false)
  /\ (result (isBlockedByOtherAgent x y s) = Returned true
      <-> truthy (myId (beliefs s)) = true
          /\ exists others agent,
               agents (beliefs s) = Some others
               /\ In agent others
               /\ Some (Agent.id agent) <> myId (beliefs s)
               /\ standsInCell agent x y).
Proof.
  destruct (isBlockedByOtherAgent_run x y s) as (b & Hrun & Hiff).
  rewrite Hrun. cbn [result final calls].
  split; [reflexivity|]. split; [reflexivity|].
  split; [destruct b; auto|].
  unfold occupiedByOther, otherAgentAt in Hiff. unfold standsInCell.
  split.
  - intros H. injection H as ->.
    destruct (proj1 Hiff eq_refl) as (Hme & others & agent & Hsome & Hin & Hid & Hx & Hy).
    split; [exact Hme|]. exists others, agent.
    apply Qfloor_cell in Hx. apply Qfloor_cell in Hy. auto 10.
  - intros (Hme & others & agent & Hsome & Hin & Hid & Hx & Hy).
    f_equal. apply Hiff. split; [exact Hme|]. exists others, agent.
    apply Qfloor_cell in Hx. apply Qfloor_cell in Hy. auto 10.
Qed.

(** An agent at (1.6, 0) blocks cell (1,0) and not cell (2,0); the agent's
    own record on (0,0) blocks nothing. *)
Example blocked_by_agent_in_transit :
  result (isBlockedByOtherAgent 1 0 inTransitWorld) = Returned true
  /\ result (isBlockedByOtherAgent 2 0 inTransitWorld) = Returned false
  /\ result (isBlockedByOtherAgent 0 0 inTransitWorld) = Returned false.
Proof. repeat split. Qed.

(** *** Every state the strategy can reach *)

(** X21.  In every state reachable from the constructor through
    [updateCarriedParcels], [getDeliveryAction] and [followDeliveryPath],
    with the beliefs changing freely in between, the block state is well
    formed: it is (null, 0), or a tile is recorded with a count of at least
    one; and with a timeout of two or more the count is below the timeout,
    so a block that has timed out is never carried into the next call. *)
Theorem reachable_blockStateOk (s : DeliveryStrategy) :
  reachableState s ->
  blockStateOk s
  /\ 0 <= blockedCounter s
  /\ (blockedTargetTile s = None <-> blockedCounter s = 0)
  /\ (2 <= BLOCKED_TIMEOUT s -> blockedCounter s < BLOCKED_TIMEOUT s).
Proof.
  intros Hreach.
  assert (Hok : blockStateOk s).
  { induction Hreach as [b pf threshold maxDetour timeout | b s _ IH
                        | allParcels s _ IH | s _ IH | cx cy s _ IH].
    - reflexivity.
    - exact IH.
    - rewrite updateCarriedParcels_final.
      destruct (myId (beliefs s)); [|exact IH].
      cbv zeta. destruct (_ && _); [reflexivity | exact IH].
    - rewrite getDeliveryAction_run.
      assert (Hroute : forall cx cy tx ty before,
                blockStateOk (final (routeThenFollow s cx cy tx ty before))).
      { intros. unfold routeThenFollow. cbn [final].
        apply followDeliveryPath_blockStateOk.
        destruct (needsNewPath _ _ _); exact IH. }
      destruct (carriedParcels s) as [|p0 more]; [exact IH|].
      destruct (myPosition (beliefs s)) as [cur|]; [|exact IH].
      cbv zeta. destruct (isDeliveryTile _ _ _); [exact IH|].
      destruct (result (evaluateDetourParcels s)) as [[detour|]|e].
      + destruct (isAtPosition _ _ _ _); [exact IH | apply Hroute].
      + destruct (getClosestDeliveryTile _ _ _); [apply Hroute | exact IH].
      + exact IH.
    - apply followDeliveryPath_blockStateOk, IH. }
  split; [exact Hok|]. unfold blockStateOk in Hok.
  destruct (blockedTargetTile s) as [tile|].
  - repeat split; try lia; discriminate.
  - repeat split; auto; lia.
Qed.

(** A new strategy, given a carried parcel, blocked for one turn. *)
Lemma reachable_blockStateOk_witness :
  let s := final (getDeliveryAction
                    (final (updateCarriedParcels [carriedOne]
                              (newStrategy blockedBeliefs corridor 10 5 3)))) in
  blockedTargetTile s = Some (Position.mk 1 0)
  /\ blockStateOk s
  /\ 0 <= blockedCounter s
  /\ (blockedTargetTile s = None <-> blockedCounter s = 0)
  /\ (2 <= BLOCKED_TIMEOUT s -> blockedCounter s < BLOCKED_TIMEOUT s).
Proof.
  split; [reflexivity|].
  apply (reachable_blockStateOk
           (final (getDeliveryAction
                     (final (updateCarriedParcels [carriedOne]
                               (newStrategy blockedBeliefs corridor 10 5 3)))))).
  apply reach_action, reach_update, reach_constructed.
Defined.
